(** * The frame-processing core of [yolo-detector.tsx]

    A shallow embedding of the three pieces of
    [src/components/yolo-detector.tsx] that carry algorithmic content:

    - [preprocessImage]: the canvas pixel buffer re-laid into a planar,
      normalised [Float32Array];
    - [processDetections]: the decoder of the model's output tensor;
    - the frame counter kept by [startDetection] and [detectFrame].

    JavaScript numbers are IEEE-754 binary64 values, so they are modelled by
    Rocq's primitive floats: every arithmetic operation and comparison below
    is the one the JavaScript engine performs, [NaN] and the signed zeros
    included.  Array indices and tensor dimensions are integers and are kept
    in [Z]. *)

From Stdlib Require Import ZArith List Bool Lia Floats Uint63 String.
From Stdlib Require Import DecimalString.
From stdpp Require Import base list.
Import ListNotations.

Open Scope Z_scope.

(* ================================================================= *)
(** * Part I: definitions *)
(* ================================================================= *)

(** ** JavaScript numbers and the built-ins the component calls *)

Module JS.

Definition number : Type := float.

Definition NaN : number := nan.

(** A non-negative integer used as a number ([IMG_SIZE], a byte value). *)
Definition num (z : Z) : number := PrimFloat.of_uint63 (Uint63.of_Z z).

(** [ToNumber] of an array element: a missing element is [undefined], and
    [undefined] is [NaN] in every arithmetic operation and comparison. *)
Definition to_number (v : option number) : number := default NaN v.

(** [a > b]; false as soon as one side is [NaN]. *)
Definition gt (a b : number) : bool := (b <? a)%float.

(** [Math.max(a, b)]: [NaN] if either argument is, and [+0] above [-0]. *)
Definition Math_max (a b : number) : number :=
  if is_nan a || is_nan b then NaN
  else if (a <? b)%float then b
  else if (b <? a)%float then a
  else if get_sign a then b else a.

(** [Math.min(a, b)]: [NaN] if either argument is, and [-0] below [+0]. *)
Definition Math_min (a b : number) : number :=
  if is_nan a || is_nan b then NaN
  else if (a <? b)%float then a
  else if (b <? a)%float then b
  else if get_sign a then a else b.

(** [Math.fround]: the binary32 value nearest to a number (ties to even),
    which is what a store into a [Float32Array] keeps. *)
Definition fround (x : number) : number :=
  SF2Prim match Prim2SF x with
          | S754_finite s m e =>
              binary_normalize 24 128 (cond_Zopp s (Zpos m)) e s
          | f => f
          end.

(** [a[k]] on an array: [undefined] outside of the array. *)
Definition index {A : Type} (a : list A) (k : Z) : option A :=
  if k <? 0 then None else a !! Z.to_nat k.

(** [for (let i = 0; i < n; i++) body] over a loop state [S]. *)
Definition for_range {S : Type} (n : Z) (body : Z -> S -> S) (s : S) : S :=
  fold_left (fun s k => body (Z.of_nat k) s) (seq 0 (Z.to_nat n)) s.

(** The template literal [`${k}`] of an integer. *)
Definition to_string (k : Z) : string := NilZero.string_of_int (Z.to_int k).

End JS.

Import JS.

(** ** Typed arrays *)

(** [new Float32Array(n)]: [n] zeros. *)
Definition Float32Array_new (n : Z) : list number :=
  replicate (Z.to_nat n) 0%float.

(** [a[k] = v] on a [Float32Array]: the value is rounded to binary32; a
    store outside of the array is dropped. *)
Definition Float32Array_set (a : list number) (k : Z) (v : number)
  : list number :=
  if k <? 0 then a else <[Z.to_nat k := fround v]> a.

(** [a[k]] read as a number. *)
Definition Float32Array_get (a : list number) (k : Z) : number :=
  to_number (index a k).

(** [pixels[k]] of a [Uint8ClampedArray], read as a number. *)
Definition Uint8Array_get (pixels : list Byte.byte) (k : Z) : number :=
  to_number (num ∘ Z.of_N ∘ Byte.to_N <$> index pixels k).

(** ** Module constants *)

Definition COCO_CLASSES : list string :=
  ["angry"; "fear"; "disgust"; "happy"; "sad"; "neutral"; "surprise"]%string.

Definition IMG_SIZE : Z := 128.

(** ** Data model *)

Record Detection : Type := mkDetection {
  classId : Z;
  score : number;
  bbox : number * number * number * number;
  className : string
}.

(** The part of an [ort.Tensor] the decoder reads. *)
Record Tensor : Type := mkTensor {
  dims : list Z;
  data : list number
}.

(** ** [preprocessImage] *)

Section Preprocessor.

(** The frame source and the canvas are the browser's: [canvasPixels video]
    stands for the [data] of [ctx.getImageData(0, 0, IMG_SIZE, IMG_SIZE)]
    after [ctx.drawImage(video, 0, 0, IMG_SIZE, IMG_SIZE)]. *)
Variable HTMLVideoElement : Type.
Variable canvasPixels : HTMLVideoElement -> list Byte.byte.

(** The body of the [for] loop, for pixel [i]. *)
Definition preprocessStep (pixels : list Byte.byte) (i : Z)
  (input : list number) : list number :=
  let input :=
    Float32Array_set input i
      (Uint8Array_get pixels (i * 4) / 255)%float in
  let input :=
    Float32Array_set input (IMG_SIZE * IMG_SIZE + i)
      (Uint8Array_get pixels (i * 4 + 1) / 255)%float in
  Float32Array_set input (2 * IMG_SIZE * IMG_SIZE + i)
    (Uint8Array_get pixels (i * 4 + 2) / 255)%float.

Definition preprocessImage (video : HTMLVideoElement) : list number :=
  let pixels := canvasPixels video in
  let input := Float32Array_new (3 * IMG_SIZE * IMG_SIZE) in
  for_range (IMG_SIZE * IMG_SIZE) (preprocessStep pixels) input.

End Preprocessor.

(** ** [processDetections] *)

(** The inner loop over the class rows of candidate [i]: the state is
    [(maxScore, maxClassId)], started at [(0, 0)]. *)
Definition classScanStep (data : list number) (numDetections i : Z) (j : Z)
  (st : number * Z) : number * Z :=
  let '(maxScore, maxClassId) := st in
  let score := Float32Array_get data ((4 + j) * numDetections + i) in
  if gt score maxScore then (score, j) else (maxScore, maxClassId).

Definition classScan (data : list number) (numDetections numClasses i : Z)
  : number * Z :=
  for_range numClasses (classScanStep data numDetections i) (0%float, 0).

(** [Math.min(Math.max(maxScore, 0), 1)]. *)
Definition normalizeScore (maxScore : number) : number :=
  Math_min (Math_max maxScore 0%float) 1%float.

(** [Math.max(0, Math.min(1, v))]. *)
Definition clampCoord (v : number) : number :=
  Math_max 0%float (Math_min 1%float v).

(** [COCO_CLASSES[maxClassId] || `Class ${maxClassId}`]. *)
Definition classNameOf (maxClassId : Z) : string :=
  match index COCO_CLASSES maxClassId with
  | Some (String c name) => String c name
  | Some EmptyString | None => "Class " ++ to_string maxClassId
  end%string.

(** The test that guards [detections.push]. *)
Definition accepted (confidenceThreshold normalizedScore : number)
  (maxClassId : Z) : bool :=
  gt normalizedScore confidenceThreshold
  && (maxClassId <? Z.of_nat (length COCO_CLASSES)).

(** The body of the outer loop, for candidate [i]. *)
Definition decodeCandidate (confidenceThreshold : number)
  (data : list number) (numDetections numClasses : Z) (i : Z)
  (detections : list Detection) : list Detection :=
  let xCenter := Float32Array_get data i in
  let yCenter := Float32Array_get data (numDetections + i) in
  let width := Float32Array_get data (2 * numDetections + i) in
  let height := Float32Array_get data (3 * numDetections + i) in
  let '(maxScore, maxClassId) :=
    classScan data numDetections numClasses i in
  let normalizedScore := normalizeScore maxScore in
  if accepted confidenceThreshold normalizedScore maxClassId then
    let x1 := clampCoord ((xCenter - width / 2) / num IMG_SIZE)%float in
    let y1 := clampCoord ((yCenter - height / 2) / num IMG_SIZE)%float in
    let x2 := clampCoord ((xCenter + width / 2) / num IMG_SIZE)%float in
    let y2 := clampCoord ((yCenter + height / 2) / num IMG_SIZE)%float in
    detections ++ [ {| classId := maxClassId;
                       score := normalizedScore;
                       bbox := (x1, y1, x2, y2);
                       className := classNameOf maxClassId |} ]
  else detections.

(** [confidenceThreshold] is the component state the closure reads.  The
    destructuring [const [_, numOutputs, numDetections] = dims] leaves
    [numDetections] undefined when [dims] has fewer than three entries; the
    loop test [i < undefined] is then false at once. *)
Definition processDetections (confidenceThreshold : number) (output : Tensor)
  : list Detection :=
  match dims output with
  | _ :: numOutputs :: numDetections :: _ =>
      let numClasses := numOutputs - 4 in
      for_range numDetections
        (decodeCandidate confidenceThreshold (data output)
           numDetections numClasses)
        []
  | _ => []
  end.

(** The shape the decoder is meant to receive:
    [[1, numOutputs, numDetections]] with [numOutputs >= 5]. *)
Definition shapeContract (dims : list Z) : bool :=
  match dims with
  | [batch; numOutputs; _] => (batch =? 1) && (5 <=? numOutputs)
  | _ => false
  end.

(** ** The frame counter of [startDetection] and [detectFrame] *)

(** [frameCountRef.current] and the [fps] state of the component. *)
Record LoopState : Type := mkLoopState {
  frameCountRef : Z;
  fps : Z
}.

(** What happens to the counter while the loop runs: the callback handed
    to [window.setInterval] fires, or a [detectFrame] cycle ends, either
    past [frameCountRef.current++] or in its [catch] block. *)
Inductive LoopEvent : Type :=
| IntervalFired
| CycleCompleted
| CycleFailed.

Definition loopStep (s : LoopState) (e : LoopEvent) : LoopState :=
  match e with
  | IntervalFired =>
      (* setFps(frameCountRef.current); frameCountRef.current = 0 *)
      {| frameCountRef := 0; fps := frameCountRef s |}
  | CycleCompleted =>
      (* frameCountRef.current++ *)
      {| frameCountRef := frameCountRef s + 1; fps := fps s |}
  | CycleFailed => s
  end.

(** [startDetection] resets the counter; [fps] starts at [useState(0)]. *)
Definition startDetection : LoopState :=
  {| frameCountRef := 0; fps := 0 |}.

Definition runLoop (events : list LoopEvent) : LoopState :=
  fold_left loopStep events startDetection.

(** The delay, in milliseconds, passed to [window.setInterval]. *)
Definition FPS_INTERVAL_MS : Z := 1.

(** The events of a run, from the number of cycles that complete in each
    successive millisecond after [startDetection]: a timer of period
    [period] fires at the end of every [period]-th millisecond. *)
Definition timeline (period : Z) (completions : list nat) : list LoopEvent :=
  concat (imap (fun ms k =>
                  replicate k CycleCompleted
                  ++ (if (Z.of_nat ms + 1) mod period =? 0
                      then [IntervalFired] else []))
               completions).

(** One second of a steady stream: a cycle completes every [every]
    milliseconds. *)
Definition steadySecond (every : nat) : list nat :=
  map (fun ms => if (S ms mod every =? 0)%nat then 1%nat else 0%nat)
      (seq 0 1000).

(** ** Vocabulary of the statements *)

(** The names below are read off [processDetections]: they give a name to
    values the function computes inline, so that statements can mention
    them.  [decodeCandidate_eq] and [decode_flat_map] tie them back to the
    function. *)

(** The raw score of class row [j] at candidate column [i]. *)
Definition classScore (data : list number) (numDetections i j : Z) : number :=
  Float32Array_get data ((4 + j) * numDetections + i).

(** The corner form of candidate [i] before clamping:
    [((cx - w/2)/IMG_SIZE, (cy - h/2)/IMG_SIZE, (cx + w/2)/IMG_SIZE,
    (cy + h/2)/IMG_SIZE)]. *)
Definition rawBox (data : list number) (numDetections i : Z)
  : number * number * number * number :=
  let xCenter := Float32Array_get data i in
  let yCenter := Float32Array_get data (numDetections + i) in
  let width := Float32Array_get data (2 * numDetections + i) in
  let height := Float32Array_get data (3 * numDetections + i) in
  ((xCenter - width / 2) / num IMG_SIZE,
   (yCenter - height / 2) / num IMG_SIZE,
   (xCenter + width / 2) / num IMG_SIZE,
   (yCenter + height / 2) / num IMG_SIZE)%float.

(** Whether candidate [i] passes the test that guards [detections.push]. *)
Definition acceptedAt (confidenceThreshold : number) (data : list number)
  (numDetections numClasses i : Z) : bool :=
  let st := classScan data numDetections numClasses i in
  accepted confidenceThreshold (normalizeScore st.1) st.2.

(** The detection pushed for candidate [i] when it is accepted. *)
Definition detectionAt (data : list number) (numDetections numClasses i : Z)
  : Detection :=
  let st := classScan data numDetections numClasses i in
  let '(u1, v1, u2, v2) := rawBox data numDetections i in
  {| classId := st.2;
     score := normalizeScore st.1;
     bbox := (clampCoord u1, clampCoord v1, clampCoord u2, clampCoord v2);
     className := classNameOf st.2 |}.

(** The invariant of the scan over the class scores [s 0], [s 1], ...
    before row [k]: [maxScore] is a number [>= 0] that none of the rows seen
    exceeds, and either the state is still the initial [(0, 0)], or
    [maxScore] is positive and [maxClassId] is the first row that holds
    it. *)
Definition scanInv (s : Z -> number) (k : Z) (st : number * Z) : Prop :=
  let '(m, c) := st in
  (0 <=? m)%float = true
  /\ (forall j, 0 <= j < k -> (m <? s j)%float = false)
  /\ ((m = 0%float /\ c = 0)
      \/ (0 <= c < k /\ m = s c /\ (0 <? m)%float = true
          /\ forall j, 0 <= j < c -> (s j =? m)%float = false)).

(** Coordinate [x] is the clamp of the unclamped value [u]: it is [NaN]
    exactly when [u] is, and within [[0, 1]] otherwise. *)
Definition clampedFrom (u x : number) : Prop :=
  x = clampCoord u
  /\ (is_nan u = true -> is_nan x = true)
  /\ (is_nan u = false ->
      (0 <=? x)%float = true /\ (x <=? 1)%float = true).

(** [Number.isFinite(x)]: neither [NaN] nor an infinity. *)
Definition isFinite (x : number) : bool := (abs x <? infinity)%float.

(** A number within [[0, 1]]. *)
Definition inUnit (x : number) : Prop :=
  (0 <=? x)%float = true /\ (x <=? 1)%float = true.

(** Zero, or of magnitude at least [2 ^ -149], the least positive binary32
    number: every element of a [Float32Array] is such a number. *)
Definition float32Sized (x : number) : bool :=
  (x =? 0)%float || (0x1p-149 <=? abs x)%float.

(** Detection [d] is the one [processDetections] pushes for candidate
    column [i] of [output] at threshold [confidenceThreshold]: the tensor
    has [numOutputs] rows and [numDetections] columns, column [i] passes
    the test that guards the push, and [d] is the object pushed.  Its box
    is the clamp, coordinate by coordinate, of the corner form of that very
    column: the coordinates are within [[0, 1]] when the centre and the
    size read from the column are finite; [x1 <= x2] (resp. [y1 <= y2])
    when the centre and the width (resp. height) read from the column are
    finite numbers of binary32 magnitude and the width (resp. height) is
    not negative; and, whatever the entries, opposite corners keep the
    order they have before clamping. *)
Definition boxClamped (confidenceThreshold : number) (output : Tensor)
  (d : Detection) : Prop :=
  exists numOutputs numDetections i,
    dims output !! 1%nat = Some numOutputs
    /\ dims output !! 2%nat = Some numDetections
    /\ 0 <= i < numDetections
    /\ acceptedAt confidenceThreshold (data output) numDetections
         (numOutputs - 4) i = true
    /\ d = detectionAt (data output) numDetections (numOutputs - 4) i
    /\ let xCenter := Float32Array_get (data output) i in
       let yCenter := Float32Array_get (data output) (numDetections + i) in
       let width := Float32Array_get (data output) (2 * numDetections + i) in
       let height :=
         Float32Array_get (data output) (3 * numDetections + i) in
       let '(u1, v1, u2, v2) := rawBox (data output) numDetections i in
       let '(x1, y1, x2, y2) := bbox d in
       (clampedFrom u1 x1 /\ clampedFrom v1 y1
        /\ clampedFrom u2 x2 /\ clampedFrom v2 y2)
       /\ (isFinite xCenter = true -> isFinite width = true ->
           inUnit x1 /\ inUnit x2)
       /\ (isFinite yCenter = true -> isFinite height = true ->
           inUnit y1 /\ inUnit y2)
       /\ (isFinite xCenter = true -> isFinite width = true ->
           float32Sized xCenter = true -> float32Sized width = true ->
           (0 <=? width)%float = true -> (x1 <=? x2)%float = true)
       /\ (isFinite yCenter = true -> isFinite height = true ->
           float32Sized yCenter = true -> float32Sized height = true ->
           (0 <=? height)%float = true -> (y1 <=? y2)%float = true)
       /\ ((u1 <=? u2)%float = true -> (x1 <=? x2)%float = true)
       /\ ((v1 <=? v2)%float = true -> (y1 <=? y2)%float = true).

(** What the loop of [preprocessImage] has established before iteration
    [k]: the array has its full length and the three planes are written up
    to pixel [k]. *)
Definition planesFilled (pixels : list Byte.byte) (k : Z)
  (input : list number) : Prop :=
  Z.of_nat (length input) = 3 * IMG_SIZE * IMG_SIZE
  /\ forall i, 0 <= i < k ->
       index input i
       = Some (fround (Uint8Array_get pixels (i * 4) / 255)%float)
       /\ index input (IMG_SIZE * IMG_SIZE + i)
          = Some (fround (Uint8Array_get pixels (i * 4 + 1) / 255)%float)
       /\ index input (2 * IMG_SIZE * IMG_SIZE + i)
          = Some (fround (Uint8Array_get pixels (i * 4 + 2) / 255)%float).

(** ** The order of binary64 numbers, through integers *)

Module NumberOrder.

(** A non-NaN number is placed in [Z * Z * Z], ordered lexicographically:
    the class (infinities, sign, zero), then exponent, then mantissa. *)
Definition rank (f : spec_float) : option (Z * Z * Z) :=
  match f with
  | S754_nan => None
  | S754_zero _ => Some (0, 0, 0)
  | S754_infinity s => Some (if s then -2 else 2, 0, 0)
  | S754_finite s m e =>
      Some (if s then (-1, - e, Zneg m) else (1, e, Zpos m))
  end.

(** The lexicographic comparison of two ranks. *)
Definition lex (a b : Z * Z * Z) : comparison :=
  let '(a1, a2, a3) := a in
  let '(b1, b2, b3) := b in
  match a1 ?= b1 with
  | Eq => match a2 ?= b2 with Eq => a3 ?= b3 | c => c end
  | c => c
  end.

(** The rank of a primitive float. *)
Definition rk (x : float) : option (Z * Z * Z) := rank (Prim2SF x).

(** [lex] as three propositions over [Z]. *)
Definition lt3 (a b : Z * Z * Z) : Prop :=
  a.1.1 < b.1.1
  \/ (a.1.1 = b.1.1 /\ (a.1.2 < b.1.2 \/ (a.1.2 = b.1.2 /\ a.2 < b.2))).

(** The specification values that are numbers, and those that are finite
    numbers. *)
Definition SFnumber (f : spec_float) : bool :=
  match f with
  | S754_nan => false
  | _ => true
  end.

Definition SFfinite (f : spec_float) : bool :=
  match f with
  | S754_zero _ | S754_finite _ _ _ => true
  | _ => false
  end.

End NumberOrder.

(** ** Rounding in binary64, on integers *)

(** The vocabulary of the facts on [SpecFloat]'s rounding that the order of
    the box corners rests on.  A finite number is [m * 2 ^ e] with a positive
    mantissa [m]. *)
Module Binary64.

(** The exponent a number with [d + e] binary digits before the point is
    stored with. *)
Definition fexp64 (e : Z) : Z := fexp prec emax e.

(** After [j] right shifts of the mantissa [M], the record holds
    [M / 2 ^ j], and no round or sticky bit if [2 ^ j] divides [M]. *)
Definition shifted (M j : Z) (mrs : shr_record) : Prop :=
  shr_m mrs = M / 2 ^ j
  /\ ((2 ^ j | M) -> shr_r mrs = false /\ shr_s mrs = false).

(** The result of rounding [m * 2 ^ e], for [m > 0], in terms of the
    mantissa [m2] kept after the first shift. *)
Definition rounded (sx : bool) (m2 e2 : Z) : spec_float :=
  let X2 := Z.max 0 (fexp64 (Zdigits2 m2 + e2) - e2) in
  match m2 / 2 ^ X2 with
  | Z0 => S754_zero sx
  | Zpos q => if e2 + X2 <=? 971 then S754_finite sx q (e2 + X2)
              else S754_infinity sx
  | Zneg _ => S754_nan
  end.

(** [m * 2 ^ e] is stored with the exponent its size calls for. *)
Definition canonical (m : positive) (e : Z) : Prop :=
  fexp64 (Zdigits2 (Zpos m) + e) = e.

(** [f] is [+0] or a positive finite number at most [my * 2 ^ ey]. *)
Definition below (f : spec_float) (my : positive) (ey : Z) : Prop :=
  f = S754_zero false
  \/ exists mr er, f = S754_finite false mr er
       /\ (er < ey \/ (er = ey /\ (mr <= my)%positive)).

(** [f] is [+Infinity] or a positive finite number at least [my * 2 ^ ey]. *)
Definition above (f : spec_float) (my : positive) (ey : Z) : Prop :=
  f = S754_infinity false
  \/ exists mr er, f = S754_finite false mr er
       /\ (ey < er \/ (er = ey /\ (my <= mr)%positive)).

(** [+0], a positive finite number or [+Infinity]. *)
Definition nonneg (f : spec_float) : Prop :=
  match f with
  | S754_zero false | S754_finite false _ _ | S754_infinity false => True
  | _ => False
  end.

(** A number that is zero or finite, with a canonical mantissa. *)
Definition SFregular (x : spec_float) : Prop :=
  match x with
  | S754_zero _ => True
  | S754_finite _ m e => canonical m e /\ e <= 971
  | _ => False
  end.

(** A number that is zero, positive, or [+Infinity]. *)
Definition SFpositive (h : spec_float) : Prop :=
  match h with
  | S754_zero _ | S754_finite false _ _ | S754_infinity false => True
  | _ => False
  end.

(** A number whose exponent, if it is finite, is at least [lo]. *)
Definition SFsized (lo : Z) (f : spec_float) : Prop :=
  match f with
  | S754_nan => False
  | S754_finite _ _ e => lo <= e
  | _ => True
  end.

(** The number [2 ^ j], with a mantissa of 53 digits. *)
Definition pow2 (j : Z) : spec_float :=
  S754_finite false 4503599627370496 (j - 52).

(** A number with a canonical mantissa whose exponent, if it is finite, is
    at least [lo]. *)
Definition SFvalidSized (lo : Z) (f : spec_float) : Prop :=
  match f with
  | S754_nan => False
  | S754_finite _ m e => canonical m e /\ e <= 971 /\ lo <= e
  | _ => True
  end.

End Binary64.

(** The tensor entry a byte of value [n] is stored as. *)
Definition normalizedByte (n : N) : number :=
  fround (num (Z.of_N n) / 255)%float.

(** ** The threshold slider *)

(** The [onChange] handler of the range input:
    [setConfidenceThreshold(parseInt(e.target.value) / 100)], on the integer
    [value] that [parseInt] reads.  The input has [min="0"], [max="100"] and
    the default step 1, so [value] is an integer from 0 to 100. *)
Definition thresholdOfSlider (value : Z) : number := (num value / 100)%float.

(** The [value] attribute the range input is rendered with:
    [confidenceThreshold * 100]. *)
Definition sliderValue (confidenceThreshold : number) : number :=
  (confidenceThreshold * 100)%float.

(** ** The component: state, refs, timers and handlers *)

Module Component.

(** What a [detectFrame] closure reads from the render that created it:
    [isDetecting] (for its last [if]) and [confidenceThreshold] (inside
    [processDetections]). *)
Record Closure : Type := mkClosure {
  seenDetecting : bool;
  seenThreshold : number
}.

(** The [useState] values, the [useRef] values, and what the browser holds
    for the component: the active intervals and the requested animation
    frames, each with the closure it will call, the [detectFrame] calls
    waiting on [session.run], and the next timer handle (handles are
    positive and never reused). *)
Record App : Type := mkApp {
  isDetecting : bool;
  isLoading : bool;
  detections : list Detection;
  fps : Z;
  modelLoaded : bool;
  confidenceThreshold : number;
  error : string;
  sessionRef : bool;
  animationRef : Z;
  fpsIntervalRef : Z;
  frameCountRef : Z;
  intervals : list (Z * Closure);
  animationFrames : list (Z * Closure);
  inFlight : list Closure;
  nextHandle : Z
}.

(** The state of the first render: the [useState] and [useRef] defaults. *)
Definition initial : App :=
  {| isDetecting := false; isLoading := false; detections := []; fps := 0;
     modelLoaded := false; confidenceThreshold := 0.5%float;
     error := EmptyString;
     sessionRef := false; animationRef := 0; fpsIntervalRef := 0;
     frameCountRef := 0;
     intervals := []; animationFrames := []; inFlight := [];
     nextHandle := 1 |}.

(** [clearInterval(h)] and [cancelAnimationFrame(h)] on a registry. *)
Definition cancel (h : Z) (timers : list (Z * Closure))
  : list (Z * Closure) :=
  List.filter (fun e => negb (e.1 =? h)) timers.

(** The closure registered under handle [h], if it is still active. *)
Definition registered (h : Z) (timers : list (Z * Closure))
  : option Closure :=
  snd <$> List.find (fun e => e.1 =? h) timers.

(** [loadModel], up to its [await]. *)
Definition loadModelBegins (s : App) : App :=
  {| isDetecting := isDetecting s; isLoading := true;
     detections := detections s; fps := fps s;
     modelLoaded := modelLoaded s;
     confidenceThreshold := confidenceThreshold s;
     error := EmptyString;
     sessionRef := sessionRef s; animationRef := animationRef s;
     fpsIntervalRef := fpsIntervalRef s; frameCountRef := frameCountRef s;
     intervals := intervals s; animationFrames := animationFrames s;
     inFlight := inFlight s; nextHandle := nextHandle s |}.

(** [loadModel], after [InferenceSession.create] has resolved. *)
Definition loadModelSucceeds (s : App) : App :=
  {| isDetecting := isDetecting s; isLoading := false;
     detections := detections s; fps := fps s;
     modelLoaded := true;
     confidenceThreshold := confidenceThreshold s;
     error := error s;
     sessionRef := true; animationRef := animationRef s;
     fpsIntervalRef := fpsIntervalRef s; frameCountRef := frameCountRef s;
     intervals := intervals s; animationFrames := animationFrames s;
     inFlight := inFlight s; nextHandle := nextHandle s |}.

(** [loadModel], in its [catch] block. *)
Definition loadModelFails (s : App) : App :=
  {| isDetecting := isDetecting s; isLoading := false;
     detections := detections s; fps := fps s;
     modelLoaded := modelLoaded s;
     confidenceThreshold := confidenceThreshold s;
     error := "Failed to load model. Please ensure best.onnx is in the public folder.";
     sessionRef := sessionRef s; animationRef := animationRef s;
     fpsIntervalRef := fpsIntervalRef s; frameCountRef := frameCountRef s;
     intervals := intervals s; animationFrames := animationFrames s;
     inFlight := inFlight s; nextHandle := nextHandle s |}.

(** [startCamera], in its [catch] block. *)
Definition startCameraFails (s : App) : App :=
  {| isDetecting := isDetecting s; isLoading := isLoading s;
     detections := detections s; fps := fps s;
     modelLoaded := modelLoaded s;
     confidenceThreshold := confidenceThreshold s;
     error := "Failed to access camera";
     sessionRef := sessionRef s; animationRef := animationRef s;
     fpsIntervalRef := fpsIntervalRef s; frameCountRef := frameCountRef s;
     intervals := intervals s; animationFrames := animationFrames s;
     inFlight := inFlight s; nextHandle := nextHandle s |}.

(** The [onChange] handler of the slider. *)
Definition sliderMoved (value : Z) (s : App) : App :=
  {| isDetecting := isDetecting s; isLoading := isLoading s;
     detections := detections s; fps := fps s;
     modelLoaded := modelLoaded s;
     confidenceThreshold := thresholdOfSlider value;
     error := error s;
     sessionRef := sessionRef s; animationRef := animationRef s;
     fpsIntervalRef := fpsIntervalRef s; frameCountRef := frameCountRef s;
     intervals := intervals s; animationFrames := animationFrames s;
     inFlight := inFlight s; nextHandle := nextHandle s |}.

(** [startDetection], called in the render whose state is [s]: the
    callback handed to [setInterval] keeps the [detectFrame] of that
    render. *)
Definition startDetection (s : App) : App :=
  if negb (modelLoaded s) then
    {| isDetecting := isDetecting s; isLoading := isLoading s;
       detections := detections s; fps := fps s;
       modelLoaded := modelLoaded s;
       confidenceThreshold := confidenceThreshold s;
       error := "Model not loaded yet";
       sessionRef := sessionRef s; animationRef := animationRef s;
       fpsIntervalRef := fpsIntervalRef s; frameCountRef := frameCountRef s;
       intervals := intervals s; animationFrames := animationFrames s;
       inFlight := inFlight s; nextHandle := nextHandle s |}
  else
    let closure := {| seenDetecting := isDetecting s;
                      seenThreshold := confidenceThreshold s |} in
    {| isDetecting := true; isLoading := isLoading s;
       detections := detections s; fps := fps s;
       modelLoaded := modelLoaded s;
       confidenceThreshold := confidenceThreshold s;
       error := EmptyString;
       sessionRef := sessionRef s; animationRef := animationRef s;
       fpsIntervalRef := nextHandle s; frameCountRef := 0;
       intervals := (nextHandle s, closure) :: intervals s;
       animationFrames := animationFrames s;
       inFlight := inFlight s; nextHandle := nextHandle s + 1 |}.

(** [stopDetection]; the two refs keep their handles. *)
Definition stopDetection (s : App) : App :=
  {| isDetecting := false; isLoading := isLoading s;
     detections := []; fps := 0;
     modelLoaded := modelLoaded s;
     confidenceThreshold := confidenceThreshold s;
     error := error s;
     sessionRef := sessionRef s; animationRef := animationRef s;
     fpsIntervalRef := fpsIntervalRef s; frameCountRef := frameCountRef s;
     intervals := if fpsIntervalRef s =? 0 then intervals s
                  else cancel (fpsIntervalRef s) (intervals s);
     animationFrames := if animationRef s =? 0 then animationFrames s
                        else cancel (animationRef s) (animationFrames s);
     inFlight := inFlight s; nextHandle := nextHandle s |}.

Definition toggleDetection (s : App) : App :=
  if isDetecting s then stopDetection s else startDetection s.

(** [detectFrame], up to [await sessionRef.current.run(feeds)]: without a
    session it returns at once; otherwise the call is in flight.
    ([videoRef.current] is set for as long as the component is mounted.) *)
Definition detectFrameBegins (c : Closure) (s : App) : App :=
  if negb (sessionRef s) then s
  else
    {| isDetecting := isDetecting s; isLoading := isLoading s;
       detections := detections s; fps := fps s;
       modelLoaded := modelLoaded s;
       confidenceThreshold := confidenceThreshold s;
       error := error s;
       sessionRef := sessionRef s; animationRef := animationRef s;
       fpsIntervalRef := fpsIntervalRef s; frameCountRef := frameCountRef s;
       intervals := intervals s; animationFrames := animationFrames s;
       inFlight := inFlight s ++ [c]; nextHandle := nextHandle s |}.

(** The callback of [setInterval], for the interval of handle [h]; a
    cleared interval does not fire. *)
Definition intervalFires (h : Z) (s : App) : App :=
  match registered h (intervals s) with
  | None => s
  | Some c =>
      detectFrameBegins c
        {| isDetecting := isDetecting s; isLoading := isLoading s;
           detections := detections s; fps := frameCountRef s;
           modelLoaded := modelLoaded s;
           confidenceThreshold := confidenceThreshold s;
           error := error s;
           sessionRef := sessionRef s; animationRef := animationRef s;
           fpsIntervalRef := fpsIntervalRef s; frameCountRef := 0;
           intervals := intervals s; animationFrames := animationFrames s;
           inFlight := inFlight s; nextHandle := nextHandle s |}
  end.

(** The rest of [detectFrame], for the [k]-th call in flight:
    [session.run] has resolved with [output0 = output], or the [try] block
    has thrown ([result = None]); then the closure's [isDetecting] decides
    on [requestAnimationFrame(detectFrame)]. *)
Definition detectFrameSettles (k : nat) (result : option Tensor) (s : App)
  : App :=
  match inFlight s !! k with
  | None => s
  | Some c =>
      let dets :=
        match result with
        | Some output => processDetections (seenThreshold c) output
        | None => detections s
        end in
      let count :=
        match result with
        | Some _ => frameCountRef s + 1
        | None => frameCountRef s
        end in
      {| isDetecting := isDetecting s; isLoading := isLoading s;
         detections := dets; fps := fps s;
         modelLoaded := modelLoaded s;
         confidenceThreshold := confidenceThreshold s;
         error := error s;
         sessionRef := sessionRef s;
         animationRef := if seenDetecting c then nextHandle s
                         else animationRef s;
         fpsIntervalRef := fpsIntervalRef s; frameCountRef := count;
         intervals := intervals s;
         animationFrames := if seenDetecting c
                            then (nextHandle s, c) :: animationFrames s
                            else animationFrames s;
         inFlight := delete k (inFlight s);
         nextHandle := if seenDetecting c then nextHandle s + 1
                       else nextHandle s |}
  end.

(** A requested animation frame of handle [h] runs [detectFrame]. *)
Definition animationFrameFires (h : Z) (s : App) : App :=
  match registered h (animationFrames s) with
  | None => s
  | Some c =>
      detectFrameBegins c
        {| isDetecting := isDetecting s; isLoading := isLoading s;
           detections := detections s; fps := fps s;
           modelLoaded := modelLoaded s;
           confidenceThreshold := confidenceThreshold s;
           error := error s;
           sessionRef := sessionRef s; animationRef := animationRef s;
           fpsIntervalRef := fpsIntervalRef s;
           frameCountRef := frameCountRef s;
           intervals := intervals s;
           animationFrames := cancel h (animationFrames s);
           inFlight := inFlight s; nextHandle := nextHandle s |}
  end.

(** What can happen to a mounted component.  Handlers run one at a time,
    each on the state of the latest render. *)
Inductive Event : Type :=
| LoadModelBegins
| LoadModelSucceeds
| LoadModelFails
| StartCameraFails
| SliderMoved (value : Z)
| ButtonClicked
| IntervalFires (handle : Z)
| AnimationFrameFires (handle : Z)
| DetectFrameSettles (k : nat) (result : option Tensor)
| Unmounts.

Definition step (s : App) (e : Event) : App :=
  match e with
  | LoadModelBegins => loadModelBegins s
  | LoadModelSucceeds => loadModelSucceeds s
  | LoadModelFails => loadModelFails s
  | StartCameraFails => startCameraFails s
  | SliderMoved value => sliderMoved value s
  | ButtonClicked => toggleDetection s
  | IntervalFires h => intervalFires h s
  | AnimationFrameFires h => animationFrameFires h s
  | DetectFrameSettles k result => detectFrameSettles k result s
  | Unmounts => stopDetection s
  end.

Definition run (events : list Event) : App :=
  fold_left step events initial.

(** A published detection is well formed: its score is within [[0, 1]] and
    its class is one of [COCO_CLASSES], under its own name. *)
Definition wellFormed (d : Detection) : Prop :=
  inUnit (score d)
  /\ 0 <= classId d < Z.of_nat (length COCO_CLASSES)
  /\ index COCO_CLASSES (classId d) = Some (className d).

(** What every reachable state satisfies. *)
Record Invariant (s : App) : Prop := mkInvariant {
  inv_handle : 0 < nextHandle s;
  inv_intervals :
    if isDetecting s
    then exists c, intervals s = [(fpsIntervalRef s, c)]
                   /\ seenDetecting c = false
                   /\ 0 < fpsIntervalRef s < nextHandle s
    else intervals s = [];
  inv_frames : animationFrames s = [] /\ animationRef s = 0;
  inv_inFlight : Forall (fun c => seenDetecting c = false) (inFlight s);
  inv_model : isDetecting s = true -> modelLoaded s = true;
  inv_session : modelLoaded s = true -> sessionRef s = true;
  inv_fps : isDetecting s = false -> fps s = 0;
  inv_counts : 0 <= frameCountRef s /\ 0 <= fps s;
  inv_detections : Forall wellFormed (detections s)
}.

End Component.

(** The number of [CycleCompleted] events met when reading a run backwards,
    from its end to the latest [IntervalFired]. *)
Fixpoint completedSinceTick (backwards : list LoopEvent) : nat :=
  match backwards with
  | [] => 0
  | IntervalFired :: _ => 0
  | CycleCompleted :: earlier => S (completedSinceTick earlier)
  | CycleFailed :: earlier => completedSinceTick earlier
  end.

(* ================================================================= *)
(** * Part II: lemmas *)
(* ================================================================= *)

(** ** The order of binary64 numbers *)

Module NumberOrderFacts.
Import NumberOrder.

(** The comparison of the IEEE-754 specification is the lexicographic
    comparison of ranks. *)
Lemma SFcompare_rank (x y : spec_float) :
  SFcompare x y =
  match rank x, rank y with
  | Some a, Some b => Some (lex a b)
  | _, _ => None
  end.
Proof.
  destruct x as [sx|sx| |sx mx ex], y as [sy|sy| |sy my ey];
    try destruct sx; try destruct sy; try reflexivity.
  - cbn. rewrite Z.compare_opp. rewrite (Z.compare_antisym ex ey).
    destruct (ex ?= ey); reflexivity.
Qed.

Lemma ltb_rk (x y : float) :
  (x <? y)%float =
  match rk x, rk y with
  | Some a, Some b => match lex a b with Lt => true | _ => false end
  | _, _ => false
  end.
Proof.
  rewrite FloatAxioms.ltb_spec. unfold SFltb, rk. rewrite SFcompare_rank.
  destruct (rank (Prim2SF x)), (rank (Prim2SF y)); reflexivity.
Qed.

Lemma leb_rk (x y : float) :
  (x <=? y)%float =
  match rk x, rk y with
  | Some a, Some b => match lex a b with Gt => false | _ => true end
  | _, _ => false
  end.
Proof.
  rewrite FloatAxioms.leb_spec. unfold SFleb, rk. rewrite SFcompare_rank.
  destruct (rank (Prim2SF x)), (rank (Prim2SF y)); reflexivity.
Qed.

Lemma eqb_rk (x y : float) :
  (x =? y)%float =
  match rk x, rk y with
  | Some a, Some b => match lex a b with Eq => true | _ => false end
  | _, _ => false
  end.
Proof.
  rewrite FloatAxioms.eqb_spec. unfold SFeqb, rk. rewrite SFcompare_rank.
  destruct (rank (Prim2SF x)), (rank (Prim2SF y)); reflexivity.
Qed.

Lemma lex_refl (a : Z * Z * Z) : lex a a = Eq.
Proof. destruct a as [[a1 a2] a3]. cbn. now rewrite !Z.compare_refl. Qed.

Lemma is_nan_rk (x : float) :
  is_nan x = match rk x with Some _ => false | None => true end.
Proof.
  unfold is_nan. rewrite eqb_rk. destruct (rk x) as [a|]; [|reflexivity].
  now rewrite lex_refl.
Qed.

Lemma lex_spec (a b : Z * Z * Z) :
  match lex a b with
  | Lt => lt3 a b
  | Eq => a.1.1 = b.1.1 /\ a.1.2 = b.1.2 /\ a.2 = b.2
  | Gt => lt3 b a
  end.
Proof.
  destruct a as [[a1 a2] a3], b as [[b1 b2] b3]. unfold lex, lt3. cbn.
  destruct (Z.compare_spec a1 b1); [|lia|lia].
  destruct (Z.compare_spec a2 b2); [|lia|lia].
  destruct (Z.compare_spec a3 b3); lia.
Qed.

Lemma rk_zero : rk 0%float = Some (0, 0, 0).
Proof. reflexivity. Qed.

Lemma rk_one : rk 1%float = Some (1, -52, 4503599627370496).
Proof. reflexivity. Qed.

(** Decides a goal made of comparisons between numbers: every number is
    replaced by its rank, every comparison by its meaning in [Z]. *)
Ltac by_rank :=
  intros;
  repeat match goal with
         | H : context [PrimFloat.ltb _ _] |- _ => revert H
         | H : context [PrimFloat.leb _ _] |- _ => revert H
         | H : context [PrimFloat.eqb _ _] |- _ => revert H
         | H : context [is_nan _] |- _ => revert H
         end;
  rewrite ?ltb_rk, ?leb_rk, ?eqb_rk, ?is_nan_rk, ?rk_zero, ?rk_one;
  repeat match goal with
         | |- context [rk ?x] =>
             generalize (rk x); intros [[[? ?] ?]|]
         end;
  repeat match goal with
         | |- context [lex ?a ?b] =>
             generalize (lex_spec a b); destruct (lex a b)
         end;
  unfold lt3; cbn [fst snd];
  intros; try discriminate; try reflexivity; try lia.

Section Facts.
Implicit Types x y z : float.

Lemma ltb_leb x y : (x <? y)%float = true -> (x <=? y)%float = true.
Proof. by_rank. Qed.

Lemma ltb_nan x y :
  (x <? y)%float = true -> is_nan x = false /\ is_nan y = false.
Proof. intros H; split; revert H; by_rank. Qed.

Lemma leb_nan x y :
  (x <=? y)%float = true -> is_nan x = false /\ is_nan y = false.
Proof. intros H; split; revert H; by_rank. Qed.

Lemma leb_refl x : is_nan x = false -> (x <=? x)%float = true.
Proof. by_rank. Qed.

Lemma nltb_leb x y :
  is_nan x = false -> is_nan y = false ->
  (x <? y)%float = false -> (y <=? x)%float = true.
Proof. by_rank. Qed.

Lemma leb_nltb x y : (x <=? y)%float = true -> (y <? x)%float = false.
Proof. by_rank. Qed.

Lemma leb_trans x y z :
  (x <=? y)%float = true -> (y <=? z)%float = true ->
  (x <=? z)%float = true.
Proof. by_rank. Qed.

Lemma leb_ltb_trans x y z :
  (x <=? y)%float = true -> (y <? z)%float = true ->
  (x <? z)%float = true.
Proof. by_rank. Qed.

Lemma ltb_leb_trans x y z :
  (x <? y)%float = true -> (y <=? z)%float = true ->
  (x <? z)%float = true.
Proof. by_rank. Qed.

Lemma nltb_eqb x y :
  is_nan x = false -> is_nan y = false ->
  (x <? y)%float = false -> (y <? x)%float = false ->
  (x =? y)%float = true.
Proof. by_rank. Qed.

Lemma eqb_leb x y : (x =? y)%float = true -> (x <=? y)%float = true.
Proof. by_rank. Qed.

Lemma ltb_neqb x y : (x <? y)%float = true -> (x =? y)%float = false.
Proof. by_rank. Qed.

Lemma nan_neqb x y : is_nan x = true -> (x =? y)%float = false.
Proof. by_rank. Qed.

Lemma nan_nltb x y :
  is_nan x = true -> (x <? y)%float = false /\ (y <? x)%float = false.
Proof. intros H; split; revert H; by_rank. Qed.

Lemma zero_leb_one : (0 <=? 1)%float = true.
Proof. reflexivity. Qed.

End Facts.

(** The facts that close routine order goals. *)
Create HintDb number_order.
#[global] Hint Resolve ltb_leb leb_refl nltb_leb leb_nltb : number_order.
#[global] Hint Resolve leb_trans leb_ltb_trans ltb_leb_trans : number_order.

End NumberOrderFacts.

Import NumberOrder NumberOrderFacts.

(** ** Arithmetic on finite numbers does not produce [NaN] *)

(** Rounding a non-negative mantissa never reaches the [NaN] branch of
    [binary_round_aux]; the lemmas hold for every format. *)
Section RoundingFacts.
Variables prec emax : Z.

Lemma iter_pos_invariant {A : Type} (P : A -> Prop) (f : A -> A) :
  (forall x, P x -> P (f x)) ->
  forall (n : positive) (x : A), P x -> P (SpecFloat.iter_pos f n x).
Proof.
  intros Hf. induction n as [n IH | n IH |]; intros x Hx; cbn; auto.
Qed.

Lemma shr_1_nonneg (mrs : shr_record) :
  0 <= shr_m mrs -> 0 <= shr_m (shr_1 mrs).
Proof.
  destruct mrs as [[|[p|p|]|p] r s]; cbn; lia.
Qed.

Lemma shr_fexp_nonneg (m e : Z) (l : location) :
  0 <= m -> 0 <= shr_m (shr_fexp prec emax m e l).1.
Proof.
  intros Hm. unfold shr_fexp, shr.
  assert (H0 : 0 <= shr_m (shr_record_of_loc m l))
    by (destruct l as [|[]]; exact Hm).
  destruct (fexp prec emax (Zdigits2 m + e) - e) as [|p|p]; cbn [fst];
    try exact H0.
  apply (iter_pos_invariant (fun mrs => 0 <= shr_m mrs));
    [apply shr_1_nonneg | exact H0].
Qed.

Lemma round_nearest_even_nonneg (m : Z) (l : location) :
  0 <= m -> 0 <= round_nearest_even m l.
Proof.
  intros Hm. destruct l as [|[]]; cbn; try destruct (Z.even m); lia.
Qed.

Lemma binary_round_aux_number (sx : bool) (mx ex : Z) (lx : location) :
  0 <= mx -> SFnumber (binary_round_aux prec emax sx mx ex lx) = true.
Proof.
  intros Hmx. unfold binary_round_aux.
  pose proof (shr_fexp_nonneg mx ex lx Hmx) as H1.
  destruct (shr_fexp prec emax mx ex lx) as [mrs' e']. cbn [fst] in H1.
  pose proof (shr_fexp_nonneg _ e' loc_Exact
                (round_nearest_even_nonneg _ (loc_of_shr_record mrs') H1))
    as H2.
  destruct (shr_fexp prec emax _ e' loc_Exact) as [mrs'' e''].
  cbn [fst] in H2. destruct (shr_m mrs'') as [|m|m]; [reflexivity| |lia].
  destruct (e'' <=? emax - prec); reflexivity.
Qed.

Lemma binary_normalize_number (m e : Z) (szero : bool) :
  SFnumber (binary_normalize prec emax m e szero) = true.
Proof.
  unfold binary_normalize, binary_round.
  destruct m as [|p|p]; [reflexivity| |];
    destruct (shl_align _ _ _) as [mz ez];
    apply binary_round_aux_number; lia.
Qed.

Lemma SFsub_number (x y : spec_float) :
  SFfinite x = true -> SFnumber y = true ->
  SFnumber (SFsub prec emax x y) = true.
Proof.
  destruct x as [sx|sx| |sx mx ex], y as [sy|sy| |sy my ey];
    try discriminate; intros _ _; cbn [SFsub];
    try reflexivity; try apply binary_normalize_number.
  destruct sx, sy; reflexivity.
Qed.

Lemma SFadd_number (x y : spec_float) :
  SFfinite x = true -> SFnumber y = true ->
  SFnumber (SFadd prec emax x y) = true.
Proof.
  destruct x as [sx|sx| |sx mx ex], y as [sy|sy| |sy my ey];
    try discriminate; intros _ _; cbn [SFadd];
    try reflexivity; try apply binary_normalize_number.
  destruct sx, sy; reflexivity.
Qed.

Lemma SFdiv_number (x : spec_float) (sy : bool) (my : positive) (ey : Z) :
  SFnumber x = true ->
  SFnumber (SFdiv prec emax x (S754_finite sy my ey)) = true.
Proof.
  destruct x as [sx|sx| |sx mx ex]; try discriminate; intros _;
    cbn [SFdiv]; try reflexivity.
  unfold SFdiv_core_binary.
  set (s := _ - _ - Z.min _ _).
  set (m' := match s with Z0 => Zpos mx | Zpos _ => Z.shiftl (Zpos mx) s
                     | Zneg _ => 0 end).
  assert (Hm' : 0 <= m').
  { unfold m'. destruct s; try lia. apply Z.shiftl_nonneg. lia. }
  pose proof (Z.div_eucl_eq m' (Zpos my) ltac:(lia)) as Heq.
  pose proof (Z.mod_pos_bound m' (Zpos my) ltac:(lia)) as Hr.
  unfold Z.modulo in Hr.
  destruct (Z.div_eucl m' (Z.pos my)) as [q r].
  apply binary_round_aux_number. nia.
Qed.

End RoundingFacts.

Section NumberClasses.
Implicit Types x y : number.

Lemma is_nan_Prim2SF x : is_nan x = negb (SFnumber (Prim2SF x)).
Proof.
  rewrite is_nan_rk. unfold rk. now destruct (Prim2SF x) as [| | |[]].
Qed.

Lemma isFinite_Prim2SF x : isFinite x = SFfinite (Prim2SF x).
Proof.
  unfold isFinite. rewrite FloatAxioms.ltb_spec, FloatAxioms.abs_spec.
  now destruct (Prim2SF x) as [[]|[]| |[]].
Qed.

Lemma isFinite_number x : isFinite x = true -> is_nan x = false.
Proof.
  rewrite isFinite_Prim2SF, is_nan_Prim2SF.
  now destruct (Prim2SF x).
Qed.

Lemma sub_number x y :
  isFinite x = true -> is_nan y = false -> is_nan (x - y)%float = false.
Proof.
  rewrite isFinite_Prim2SF, !is_nan_Prim2SF, FloatAxioms.sub_spec.
  rewrite !negb_false_iff. apply SFsub_number.
Qed.

Lemma add_number x y :
  isFinite x = true -> is_nan y = false -> is_nan (x + y)%float = false.
Proof.
  rewrite isFinite_Prim2SF, !is_nan_Prim2SF, FloatAxioms.add_spec.
  rewrite !negb_false_iff. apply SFadd_number.
Qed.

Lemma div_number x y :
  SFfinite (Prim2SF y) && negb (y =? 0)%float = true ->
  is_nan x = false -> is_nan (x / y)%float = false.
Proof.
  rewrite !is_nan_Prim2SF, FloatAxioms.div_spec, FloatAxioms.eqb_spec.
  rewrite !negb_false_iff.
  destruct (Prim2SF y) as [sy|sy| |sy my ey]; try discriminate.
  intros _. apply SFdiv_number.
Qed.

End NumberClasses.

(** ** Rounding in binary64: between the neighbours of the exact value *)

Import Binary64.

Lemma fexp64_eq (e : Z) : fexp64 e = Z.max (e - 53) (-1074).
Proof. reflexivity. Qed.

Lemma fexp64_mono (a b : Z) : a <= b -> fexp64 a <= fexp64 b.
Proof. rewrite !fexp64_eq. lia. Qed.

(** *** Binary digits *)

Lemma digits2_bounds (p : positive) :
  2 ^ (Zpos (digits2_pos p) - 1) <= Zpos p < 2 ^ Zpos (digits2_pos p).
Proof.
  induction p as [p IH | p IH |]; cbn [digits2_pos].
  - rewrite Pos2Z.inj_succ. replace (Z.succ (Zpos (digits2_pos p)) - 1)
      with (Z.succ (Zpos (digits2_pos p) - 1)) by lia.
    rewrite !Z.pow_succ_r by lia. lia.
  - rewrite Pos2Z.inj_succ. replace (Z.succ (Zpos (digits2_pos p)) - 1)
      with (Z.succ (Zpos (digits2_pos p) - 1)) by lia.
    rewrite !Z.pow_succ_r by lia. lia.
  - cbn. lia.
Qed.

Lemma Zdigits2_bounds (m : Z) :
  0 < m -> 2 ^ (Zdigits2 m - 1) <= m < 2 ^ Zdigits2 m.
Proof. destruct m as [|p|p]; try lia. intros _. apply digits2_bounds. Qed.

Lemma Zdigits2_pos (m : Z) : 0 < m -> 0 < Zdigits2 m.
Proof. destruct m; cbn; lia. Qed.

Lemma pow2_lt_inv (a b : Z) : 0 <= b -> 2 ^ a < 2 ^ b -> a < b.
Proof. intros Hb H. apply (Z.pow_lt_mono_r_iff 2); lia. Qed.

Lemma Zdigits2_unique (m k : Z) :
  2 ^ (k - 1) <= m < 2 ^ k -> 0 < m -> Zdigits2 m = k.
Proof.
  intros Hk Hm. pose proof (Zdigits2_bounds m Hm) as Hd.
  pose proof (Zdigits2_pos m Hm) as Hp.
  assert (0 < k).
  { destruct (Z.lt_trichotomy k 0) as [Hlt | [-> | Hgt]]; [| |exact Hgt].
    - rewrite (Z.pow_neg_r 2 k) in Hk by lia. lia.
    - change (2 ^ 0) with 1 in Hk. lia. }
  assert (Zdigits2 m - 1 < k) by (apply pow2_lt_inv; lia).
  assert (k - 1 < Zdigits2 m) by (apply pow2_lt_inv; lia).
  lia.
Qed.

Lemma Zdigits2_le (m1 m2 : Z) :
  0 < m1 -> m1 <= m2 -> Zdigits2 m1 <= Zdigits2 m2.
Proof.
  intros H1 H12. pose proof (Zdigits2_bounds m1 H1).
  pose proof (Zdigits2_bounds m2 ltac:(lia)).
  pose proof (Zdigits2_pos m2 ltac:(lia)).
  assert (Zdigits2 m1 - 1 < Zdigits2 m2) by (apply pow2_lt_inv; lia).
  lia.
Qed.

Lemma Zdigits2_lt_pow (m k : Z) :
  0 < m -> 0 <= k -> m < 2 ^ k -> Zdigits2 m <= k.
Proof.
  intros Hm Hk Hlt. pose proof (Zdigits2_bounds m Hm).
  assert (Zdigits2 m - 1 < k) by (apply pow2_lt_inv; lia). lia.
Qed.

Lemma Zdigits2_ge_pow (m k : Z) : 0 <= k -> 2 ^ k <= m -> k < Zdigits2 m.
Proof.
  intros Hk Hle. assert (Hm : 0 < m) by (pose proof (Z.pow_pos_nonneg 2 k); lia).
  pose proof (Zdigits2_bounds m Hm). pose proof (Zdigits2_pos m Hm).
  apply pow2_lt_inv; lia.
Qed.

Lemma Zdigits2_shift (m j : Z) :
  0 < m -> 0 <= j -> Zdigits2 (m * 2 ^ j) = Zdigits2 m + j.
Proof.
  intros Hm Hj. pose proof (Zdigits2_bounds m Hm) as Hd.
  pose proof (Zdigits2_pos m Hm) as Hp.
  pose proof (Z.pow_pos_nonneg 2 j ltac:(lia) Hj) as Hpow.
  apply Zdigits2_unique; [|nia].
  replace (Zdigits2 m + j - 1) with ((Zdigits2 m - 1) + j) by lia.
  rewrite !Z.pow_add_r by lia. nia.
Qed.

(** *** Shifting right *)

Section Shift.
Variable M : Z.
Hypothesis HM : 0 <= M.

Lemma shifted_shr_1 (j : Z) (mrs : shr_record) :
  0 <= j -> shifted M j mrs -> shifted M (j + 1) (shr_1 mrs).
Proof.
  intros Hj [Hm Hex].
  assert (Hpow : 0 < 2 ^ j) by (apply Z.pow_pos_nonneg; lia).
  assert (Hdiv : M / 2 ^ (j + 1) = (M / 2 ^ j) / 2).
  { rewrite Z.pow_add_r, Z.pow_1_r by lia. now rewrite Z.div_div by lia. }
  assert (Hnn : 0 <= M / 2 ^ j) by (apply Z.div_pos; lia).
  split.
  - rewrite Hdiv, <- Hm. destruct mrs as [[|[p|p|]|p] r s]; cbn in *;
      try lia; try reflexivity.
    + now rewrite Pos2Z.inj_xI, Z.mul_comm, Z.div_add_l by lia.
    + now rewrite Pos2Z.inj_xO, Z.mul_comm, Z.div_mul by lia.
  - intros [c Hc]. rewrite Z.pow_add_r, Z.pow_1_r in Hc by lia.
    assert (Hdj : (2 ^ j | M)) by (exists (c * 2); lia).
    destruct (Hex Hdj) as [Hr Hs].
    assert (Hq : M / 2 ^ j = c * 2).
    { rewrite Hc. replace (c * (2 ^ j * 2)) with (c * 2 * 2 ^ j) by lia.
      now rewrite Z.div_mul by lia. }
    rewrite Hq in Hm.
    destruct mrs as [[|[p|p|]|p] r s]; cbn in *; subst; cbn; try lia;
      split; reflexivity.
Qed.

Lemma shifted_iter (p : positive) :
  forall (j : Z) (mrs : shr_record),
    0 <= j -> shifted M j mrs ->
    shifted M (j + Zpos p) (SpecFloat.iter_pos shr_1 p mrs).
Proof.
  induction p as [p IH | p IH |]; intros j mrs Hj Hs; cbn [SpecFloat.iter_pos].
  - replace (j + Zpos p~1) with (j + 1 + Zpos p + Zpos p) by lia.
    apply IH; [lia|]. apply IH; [lia|]. now apply shifted_shr_1.
  - replace (j + Zpos p~0) with (j + Zpos p + Zpos p) by lia.
    apply IH; [lia|]. now apply IH.
  - now apply shifted_shr_1.
Qed.

End Shift.

Lemma shr_fexp_exact (m e : Z) :
  0 <= m ->
  let X := Z.max 0 (fexp64 (Zdigits2 m + e) - e) in
  exists mrs,
    shr_fexp prec emax m e loc_Exact = (mrs, e + X)
    /\ shr_m mrs = m / 2 ^ X
    /\ ((2 ^ X | m) -> loc_of_shr_record mrs = loc_Exact).
Proof.
  intros Hm X. unfold shr_fexp, shr. fold (fexp64 (Zdigits2 m + e)).
  assert (H0 : shifted m 0 (shr_record_of_loc m loc_Exact)).
  { split; cbn; [now rewrite Z.div_1_r | auto]. }
  destruct (fexp64 (Zdigits2 m + e) - e) as [|p|p] eqn:HX; subst X.
  - exists (shr_record_of_loc m loc_Exact). cbn.
    rewrite Z.add_0_r, Z.div_1_r. auto.
  - exists (SpecFloat.iter_pos shr_1 p (shr_record_of_loc m loc_Exact)).
    destruct (shifted_iter m Hm p 0 _ ltac:(lia) H0) as [Hs Hex].
    rewrite Z.max_r by lia. cbn [Z.add] in Hs, Hex.
    split; [reflexivity|]. split; [exact Hs|].
    intros Hd. destruct (Hex Hd) as [Hr Hss].
    destruct (SpecFloat.iter_pos shr_1 p _) as [m' r s']. cbn in *.
    now subst.
  - exists (shr_record_of_loc m loc_Exact). cbn.
    rewrite Z.add_0_r, Z.div_1_r. auto.
Qed.

Lemma round_nearest_even_bounds (m : Z) (l : location) :
  m <= round_nearest_even m l <= m + 1
  /\ (l = loc_Exact -> round_nearest_even m l = m).
Proof.
  destruct l as [|[]]; cbn; try destruct (Z.even m); split; try lia;
    try discriminate; reflexivity.
Qed.

Lemma binary_round_aux_exact (sx : bool) (m e : Z) :
  0 <= m ->
  let X := Z.max 0 (fexp64 (Zdigits2 m + e) - e) in
  exists m2,
    m / 2 ^ X <= m2 <= m / 2 ^ X + 1
    /\ ((2 ^ X | m) -> m2 = m / 2 ^ X)
    /\ binary_round_aux prec emax sx m e loc_Exact = rounded sx m2 (e + X).
Proof.
  intros Hm X. unfold binary_round_aux.
  destruct (shr_fexp_exact m e Hm) as (mrs & -> & Hmrs & Hex). fold X in Hmrs, Hex |- *.
  set (m2 := round_nearest_even (shr_m mrs) (loc_of_shr_record mrs)).
  destruct (round_nearest_even_bounds (shr_m mrs) (loc_of_shr_record mrs))
    as [Hb Hexact]. fold m2 in Hb, Hexact.
  assert (Hq : 0 <= m / 2 ^ X)
    by (apply Z.div_pos; [lia | apply Z.pow_pos_nonneg; lia]).
  exists m2. rewrite <- Hmrs. split; [exact Hb|]. split; [auto|].
  assert (Hm2 : 0 <= m2) by lia.
  destruct (shr_fexp_exact m2 (e + X) Hm2) as (mrs2 & -> & Hmrs2 & _).
  unfold rounded. rewrite Hmrs2.
  destruct (m2 / 2 ^ _) as [|q|q]; reflexivity.
Qed.

Lemma rounded_opp (m2 e2 : Z) :
  rounded true m2 e2 = SFopp (rounded false m2 e2).
Proof.
  unfold rounded. destruct (m2 / 2 ^ _) as [|q|q]; try reflexivity.
  now destruct (_ <=? 971).
Qed.

Lemma shl_align_spec (mx : positive) (ex e' : Z) :
  (e' < ex ->
   exists mz, shl_align mx ex e' = (mz, e')
              /\ Zpos mz = Zpos mx * 2 ^ (ex - e'))
  /\ (ex <= e' -> shl_align mx ex e' = (mx, ex)).
Proof.
  unfold shl_align. split; intros He.
  - destruct (e' - ex) as [|d|d] eqn:Hd; try lia.
    exists (Pos.iter xO mx d). split; [reflexivity|].
    change (Pos.iter xO mx d) with (shift_pos d mx).
    rewrite shift_pos_correct. replace (ex - e') with (Zpos d) by lia.
    change (Z.pow_pos 2 d) with (2 ^ Zpos d). lia.
  - destruct (e' - ex) as [|d|d] eqn:Hd; try lia; reflexivity.
Qed.

(** Rounding [mx * 2 ^ ex]: either the value is representable at the
    exponent [E] its size calls for, or a mantissa [m2] next to the exact
    quotient is kept at [E]. *)
Lemma binary_round_spec (sx : bool) (mx : positive) (ex : Z) :
  let E := fexp64 (Zdigits2 (Zpos mx) + ex) in
  (E <= ex ->
   exists mz, Zpos mz = Zpos mx * 2 ^ (ex - E)
     /\ binary_round prec emax sx mx ex =
        if E <=? 971 then S754_finite sx mz E else S754_infinity sx)
  /\ (ex < E ->
      exists m2, Zpos mx / 2 ^ (E - ex) <= m2 <= Zpos mx / 2 ^ (E - ex) + 1
        /\ ((2 ^ (E - ex) | Zpos mx) -> m2 = Zpos mx / 2 ^ (E - ex))
        /\ binary_round prec emax sx mx ex = rounded sx m2 E).
Proof.
  intros E. unfold binary_round.
  change (fexp prec emax (Zpos (digits2_pos mx) + ex)) with E.
  destruct (shl_align_spec mx ex E) as [Hshl Hnoshl]. split; intros HE.
  - assert (Hmz : exists mz, shl_align mx ex E = (mz, E)
                             /\ Zpos mz = Zpos mx * 2 ^ (ex - E)).
    { destruct (Z.eq_dec E ex) as [Heq | Hne].
      - exists mx. rewrite Hnoshl by lia. rewrite Heq, Z.sub_diag.
        split; [reflexivity | lia].
      - apply Hshl. lia. }
    destruct Hmz as (mz & -> & Hmz). exists mz. split; [exact Hmz|].
    destruct (binary_round_aux_exact sx (Zpos mz) E ltac:(lia))
      as (m2 & _ & Hex & ->).
    assert (Hd : Zdigits2 (Zpos mz) + E = Zdigits2 (Zpos mx) + ex).
    { rewrite Hmz, Zdigits2_shift by lia. lia. }
    assert (HX : Z.max 0 (fexp64 (Zdigits2 (Zpos mz) + E) - E) = 0).
    { rewrite Hd. fold E. lia. }
    rewrite HX in *. rewrite Z.add_0_r.
    rewrite Hex by (exists (Zpos mz); cbn; lia).
    unfold rounded. change (2 ^ 0) with 1 in *. rewrite Z.div_1_r.
    rewrite Hd. fold E. rewrite Z.sub_diag. cbn [Z.max].
    change (2 ^ 0) with 1. rewrite Z.div_1_r, Z.add_0_r. reflexivity.
  - rewrite Hnoshl by lia.
    destruct (binary_round_aux_exact sx (Zpos mx) ex ltac:(lia))
      as (m2 & Hb & Hex & ->). fold E in Hb, Hex |- *.
    replace (Z.max 0 (E - ex)) with (E - ex) in * by lia.
    exists m2. replace (ex + (E - ex)) with E by lia. auto.
Qed.

(** *** Rounding does not cross a representable number *)

Lemma rounded_below (m2 E : Z) (my : positive) (ey : Z) :
  canonical my ey -> ey <= 971 -> E <= ey ->
  0 <= m2 <= Zpos my * 2 ^ (ey - E) ->
  below (rounded false m2 E) my ey.
Proof.
  intros Hcan Hey HE Hm2. unfold rounded.
  set (X2 := Z.max 0 (fexp64 (Zdigits2 m2 + E) - E)).
  assert (HX2 : 0 <= X2) by lia.
  pose proof (Z.pow_pos_nonneg 2 X2 ltac:(lia) HX2) as Hpow.
  assert (Hq : 0 <= m2 / 2 ^ X2) by (apply Z.div_pos; lia).
  destruct (m2 / 2 ^ X2) as [|q|q] eqn:Hdiv; [now left | | lia].
  assert (Hpos : 0 < m2).
  { destruct (Z.eq_dec m2 0) as [-> | ?]; [|lia].
    rewrite Z.div_0_l in Hdiv by lia. discriminate. }
  assert (Hd : Zdigits2 m2 + E <= Zdigits2 (Zpos my) + ey).
  { pose proof (Zdigits2_le m2 _ Hpos (proj2 Hm2)) as H.
    rewrite Zdigits2_shift in H by lia. lia. }
  apply fexp64_mono in Hd. rewrite Hcan in Hd.
  assert (HEX : E + X2 <= ey) by lia.
  replace (E + X2 <=? 971) with true by (symmetry; apply Z.leb_le; lia).
  right. exists q, (E + X2). split; [reflexivity|].
  destruct (Z.eq_dec (E + X2) ey) as [Heq | Hne]; [right | left; lia].
  split; [exact Heq|].
  assert (Zpos q <= Zpos my); [|lia].
  rewrite <- Hdiv. apply Z.div_le_upper_bound; [lia|].
  replace (ey - E) with X2 in Hm2 by lia. lia.
Qed.

Lemma rounded_above (m2 E : Z) (my : positive) (ey : Z) :
  -1074 <= E -> ey <= E -> 1 <= m2 -> (E = ey -> Zpos my <= m2) ->
  above (rounded false m2 E) my ey.
Proof.
  intros HE Hey Hm2 Heq. unfold rounded.
  set (X2 := Z.max 0 (fexp64 (Zdigits2 m2 + E) - E)).
  assert (HX2 : 0 <= X2) by lia.
  pose proof (Z.pow_pos_nonneg 2 X2 ltac:(lia) HX2) as Hpow.
  assert (Hq : 1 <= m2 / 2 ^ X2).
  { destruct (Z.eq_dec X2 0) as [H0 | Hn0].
    - rewrite H0. change (2 ^ 0) with 1. now rewrite Z.div_1_r.
    - assert (HX : X2 = Zdigits2 m2 - 53)
        by (subst X2; rewrite fexp64_eq in *; lia).
      pose proof (Zdigits2_bounds m2 ltac:(lia)) as Hb.
      apply Z.div_le_lower_bound; [lia|]. rewrite HX, Z.mul_1_r.
      transitivity (2 ^ (Zdigits2 m2 - 1)); [|lia].
      apply Z.pow_le_mono_r; lia. }
  destruct (m2 / 2 ^ X2) as [|q|q] eqn:Hdiv; try lia.
  destruct (E + X2 <=? 971); [|now left].
  right. exists q, (E + X2). split; [reflexivity|].
  destruct (Z.eq_dec (E + X2) ey) as [He | Hne]; [right | left; lia].
  split; [exact He|].
  assert (H0 : X2 = 0) by lia. rewrite H0 in Hdiv.
  change (2 ^ 0) with 1 in Hdiv. rewrite Z.div_1_r in Hdiv.
  specialize (Heq ltac:(lia)). lia.
Qed.

(** Rounding a positive value that is at most the representable number
    [my * 2 ^ ey] gives at most that number. *)
Lemma round_below (mx : positive) (ex : Z) (my : positive) (ey : Z) :
  canonical my ey -> ey <= 971 -> ex <= ey ->
  Zpos mx <= Zpos my * 2 ^ (ey - ex) ->
  below (binary_round prec emax false mx ex) my ey.
Proof.
  intros Hcan Hey Hex Hle.
  pose proof (binary_round_spec false mx ex) as Hspec. cbv zeta in Hspec.
  set (E := fexp64 (Zdigits2 (Zpos mx) + ex)) in *.
  assert (HE : E <= ey).
  { pose proof (Zdigits2_le (Zpos mx) _ ltac:(lia) Hle) as H.
    rewrite Zdigits2_shift in H by lia.
    rewrite <- Hcan. apply fexp64_mono. lia. }
  destruct Hspec as [Hexact Hround].
  destruct (Z_le_gt_dec E ex) as [HEx | HEx].
  - destruct (Hexact HEx) as (mz & Hmz & ->).
    replace (E <=? 971) with true by (symmetry; apply Z.leb_le; lia).
    right. exists mz, E. split; [reflexivity|].
    destruct (Z.eq_dec E ey) as [Heq | Hne]; [right | left; lia].
    split; [exact Heq|].
    assert (ex = ey) by lia. subst ex. rewrite Heq in Hmz.
    rewrite Z.sub_diag in *. change (2 ^ 0) with 1 in *. lia.
  - destruct (Hround ltac:(lia)) as (m2 & Hb & Hdiv & ->).
    set (k := E - ex) in *.
    pose proof (Z.pow_pos_nonneg 2 k ltac:(lia) ltac:(lia)) as Hpow.
    assert (Hq : 0 <= Zpos mx / 2 ^ k) by (apply Z.div_pos; lia).
    assert (Hsplit : Zpos my * 2 ^ (ey - ex)
                     = Zpos my * 2 ^ (ey - E) * 2 ^ k).
    { rewrite <- Z.mul_assoc, <- Z.pow_add_r by lia.
      do 2 f_equal. lia. }
    apply rounded_below; try assumption. split; [lia|].
    destruct (Z.eq_dec (Zpos mx mod 2 ^ k) 0) as [Hz | Hnz].
    + rewrite Hdiv by (apply Z.mod_divide; [lia | exact Hz]).
      apply Z.div_le_upper_bound; [lia|]. lia.
    + assert (Hlt : Zpos mx < Zpos my * 2 ^ (ey - E) * 2 ^ k).
      { destruct (Z.eq_dec (Zpos mx) (Zpos my * 2 ^ (ey - E) * 2 ^ k))
          as [Heq | ?]; [|lia].
        exfalso. apply Hnz. rewrite Heq. apply Z.mod_mul. lia. }
      assert (Zpos mx / 2 ^ k < Zpos my * 2 ^ (ey - E)); [|lia].
      apply Z.div_lt_upper_bound; lia.
Qed.

(** Rounding a positive value that is at least the representable number
    [my * 2 ^ ey] gives at least that number. *)
Lemma round_above (mx : positive) (ex : Z) (my : positive) (ey : Z) :
  canonical my ey -> ex <= ey ->
  Zpos my * 2 ^ (ey - ex) <= Zpos mx ->
  above (binary_round prec emax false mx ex) my ey.
Proof.
  intros Hcan Hex Hle.
  pose proof (binary_round_spec false mx ex) as Hspec. cbv zeta in Hspec.
  set (E := fexp64 (Zdigits2 (Zpos mx) + ex)) in *.
  pose proof (Z.pow_pos_nonneg 2 (ey - ex) ltac:(lia) ltac:(lia)) as Hpow0.
  assert (HE : ey <= E).
  { assert (Hp : 0 < Zpos my * 2 ^ (ey - ex)) by (apply Z.mul_pos_pos; lia).
    pose proof (Zdigits2_le _ (Zpos mx) Hp Hle) as H.
    rewrite Zdigits2_shift in H by lia.
    rewrite <- Hcan. apply fexp64_mono. lia. }
  destruct Hspec as [Hexact Hround].
  destruct (Z_le_gt_dec E ex) as [HEx | HEx].
  - destruct (Hexact HEx) as (mz & Hmz & ->).
    destruct (E <=? 971); [|now left].
    right. exists mz, E. split; [reflexivity|]. right.
    assert (E = ey) by lia. assert (ex = ey) by lia. subst ex.
    split; [assumption|].
    replace (ey - E) with 0 in Hmz by lia.
    rewrite Z.sub_diag in *. change (2 ^ 0) with 1 in *. lia.
  - destruct (Hround ltac:(lia)) as (m2 & Hb & _ & ->).
    set (k := E - ex) in *.
    pose proof (Z.pow_pos_nonneg 2 k ltac:(lia) ltac:(lia)) as Hpow.
    assert (HEmin : -1074 <= E) by (subst E; rewrite fexp64_eq; lia).
    assert (Hone : 1 <= Zpos mx / 2 ^ k
                   /\ (E = ey -> Zpos my <= Zpos mx / 2 ^ k)).
    { split.
      - destruct (Z.eq_dec E ey) as [Heq | Hne].
        + apply Z.div_le_lower_bound; [lia|].
          replace (ey - ex) with k in Hle by lia. nia.
        + assert (Hcy : -1074 <= ey)
            by (rewrite <- Hcan, fexp64_eq; lia).
          assert (Hk : k = Zdigits2 (Zpos mx) - 53)
            by (subst k E; rewrite fexp64_eq in *; lia).
          pose proof (Zdigits2_bounds (Zpos mx) ltac:(lia)) as Hbd.
          apply Z.div_le_lower_bound; [lia|]. rewrite Z.mul_1_r.
          transitivity (2 ^ (Zdigits2 (Zpos mx) - 1)); [|lia].
          rewrite Hk. apply Z.pow_le_mono_r; lia.
      - intros Heq. apply Z.div_le_lower_bound; [lia|].
        replace (ey - ex) with k in Hle by lia. lia. }
    destruct Hone as [H1 H2].
    apply rounded_above; [assumption | assumption | lia |].
    intros Heq. specialize (H2 Heq). lia.
Qed.

(** *** Signs *)

Lemma binary_round_aux_opp (m e : Z) (l : location) :
  binary_round_aux prec emax true m e l
  = SFopp (binary_round_aux prec emax false m e l).
Proof.
  unfold binary_round_aux.
  destruct (shr_fexp prec emax m e l) as [mrs' e'].
  destruct (shr_fexp prec emax _ e' loc_Exact) as [mrs'' e''].
  destruct (shr_m mrs'') as [|q|q]; try reflexivity.
  now destruct (e'' <=? emax - prec).
Qed.

Lemma binary_round_opp (m : positive) (e : Z) :
  binary_round prec emax true m e = SFopp (binary_round prec emax false m e).
Proof.
  unfold binary_round. destruct (shl_align m e _) as [mz ez].
  apply binary_round_aux_opp.
Qed.

Lemma rounded_nonneg (m2 E : Z) : 0 <= m2 -> nonneg (rounded false m2 E).
Proof.
  intros Hm2. unfold rounded.
  set (X2 := Z.max 0 _).
  assert (Hq : 0 <= m2 / 2 ^ X2)
    by (apply Z.div_pos; [lia | apply Z.pow_pos_nonneg; lia]).
  destruct (m2 / 2 ^ X2) as [|q|q]; [exact I | | lia].
  now destruct (_ <=? 971).
Qed.

Lemma round_nonneg (m : positive) (e : Z) :
  nonneg (binary_round prec emax false m e).
Proof.
  pose proof (binary_round_spec false m e) as Hspec. cbv zeta in Hspec.
  set (E := fexp64 (Zdigits2 (Zpos m) + e)) in *.
  destruct Hspec as [Hexact Hround].
  destruct (Z_le_gt_dec E e) as [HE | HE].
  - destruct (Hexact HE) as (mz & _ & ->). now destruct (E <=? 971).
  - destruct (Hround ltac:(lia)) as (m2 & Hb & _ & ->).
    apply rounded_nonneg.
    assert (0 <= Zpos m / 2 ^ (E - e))
      by (apply Z.div_pos; [lia | apply Z.pow_pos_nonneg; lia]).
    lia.
Qed.

(** *** The order of the results *)

Lemma SFleb_refl_finite (s : bool) (m : positive) (e : Z) :
  SFleb (S754_finite s m e) (S754_finite s m e) = true.
Proof.
  unfold SFleb, SFcompare. rewrite Z.compare_refl.
  change (Pos.compare_cont Eq m m) with (Pos.compare m m).
  rewrite Pos.compare_refl. now destruct s.
Qed.

Lemma SFleb_below (f : spec_float) (m : positive) (e : Z) :
  below f m e -> SFleb f (S754_finite false m e) = true.
Proof.
  intros [-> | (mr & er & -> & [Hlt | [-> Hle]])]; [reflexivity | |].
  - unfold SFleb, SFcompare.
    now replace (er ?= e) with Lt by (symmetry; apply Z.compare_lt_iff; lia).
  - unfold SFleb, SFcompare. rewrite Z.compare_refl.
    change (Pos.compare_cont Eq mr m) with (Pos.compare mr m).
    destruct (Pos.compare_spec mr m); try reflexivity. lia.
Qed.

Lemma SFleb_above (f : spec_float) (m : positive) (e : Z) :
  above f m e -> SFleb (S754_finite false m e) f = true.
Proof.
  intros [-> | (mr & er & -> & [Hlt | [-> Hle]])]; [reflexivity | |].
  - unfold SFleb, SFcompare.
    now replace (e ?= er) with Lt by (symmetry; apply Z.compare_lt_iff; lia).
  - unfold SFleb, SFcompare. rewrite Z.compare_refl.
    change (Pos.compare_cont Eq m mr) with (Pos.compare m mr).
    destruct (Pos.compare_spec m mr); try reflexivity. lia.
Qed.

Lemma SFleb_opp_below (f : spec_float) (m : positive) (e : Z) :
  below f m e -> SFleb (S754_finite true m e) (SFopp f) = true.
Proof.
  intros [-> | (mr & er & -> & [Hlt | [-> Hle]])]; [reflexivity | |].
  - cbn [SFopp negb]. unfold SFleb, SFcompare.
    now replace (e ?= er) with Gt by (symmetry; apply Z.compare_gt_iff; lia).
  - cbn [SFopp negb]. unfold SFleb, SFcompare. rewrite Z.compare_refl.
    change (Pos.compare_cont Eq m mr) with (Pos.compare m mr).
    destruct (Pos.compare_spec m mr); try reflexivity. lia.
Qed.

Lemma SFleb_opp_above (f : spec_float) (m : positive) (e : Z) :
  above f m e -> SFleb (SFopp f) (S754_finite true m e) = true.
Proof.
  intros [-> | (mr & er & -> & [Hlt | [-> Hle]])]; [reflexivity | |].
  - cbn [SFopp negb]. unfold SFleb, SFcompare.
    now replace (er ?= e) with Gt by (symmetry; apply Z.compare_gt_iff; lia).
  - cbn [SFopp negb]. unfold SFleb, SFcompare. rewrite Z.compare_refl.
    change (Pos.compare_cont Eq mr m) with (Pos.compare mr m).
    destruct (Pos.compare_spec mr m); try reflexivity. lia.
Qed.

Lemma SFleb_opp_nonneg (f : spec_float) (m : positive) (e : Z) :
  nonneg f -> SFleb (SFopp f) (S754_finite false m e) = true.
Proof. destruct f as [[]|[]| |[] ? ?]; intros []; reflexivity. Qed.

Lemma SFleb_neg_nonneg (f : spec_float) (m : positive) (e : Z) :
  nonneg f -> SFleb (S754_finite true m e) f = true.
Proof. destruct f as [[]|[]| |[] ? ?]; intros []; reflexivity. Qed.

(** *** Adding and subtracting a number that is not negative *)

Lemma shl_align_fst (mx : positive) (ex ez : Z) :
  ez <= ex -> Zpos (fst (shl_align mx ex ez)) = Zpos mx * 2 ^ (ex - ez).
Proof.
  intros Hle. destruct (shl_align_spec mx ex ez) as [Hshl Hno].
  destruct (Z.eq_dec ez ex) as [-> | Hne].
  - rewrite Hno by lia. rewrite Z.sub_diag. cbn [fst]. lia.
  - destruct (Hshl ltac:(lia)) as (mz & -> & Hmz). exact Hmz.
Qed.

(** Subtracting a number that is not negative does not raise a finite
    number, whatever the rounding. *)
Lemma SFsub_leb (x h : spec_float) :
  SFregular x -> SFpositive h -> SFleb (SFsub prec emax x h) x = true.
Proof.
  destruct x as [sx| | |sx mx ex]; try (intros []; fail).
  - (* x is a zero *)
    intros _. destruct h as [sh|[]| |[] mh eh]; try (intros []; fail);
      intros _; destruct sx; try reflexivity; destruct sh; reflexivity.
  - intros [Hcan Hex].
    destruct h as [sh|[]| |[] mh eh]; try (intros []; fail); intros _.
    + apply SFleb_refl_finite.
    + now destruct sx.
    + cbn [SFsub]. set (ez := Z.min ex eh).
      pose proof (shl_align_fst mx ex ez ltac:(lia)) as HX.
      pose proof (shl_align_fst mh eh ez ltac:(lia)) as HH.
      set (X := fst (shl_align mx ex ez)) in *.
      set (H := fst (shl_align mh eh ez)) in *.
      destruct sx; cbn [cond_Zopp].
      * (* x < 0: the magnitude grows *)
        change (- Zpos X - Zpos H) with (Z.neg (X + H)).
        cbn [binary_normalize]. rewrite binary_round_opp.
        apply SFleb_opp_above, round_above; [exact Hcan | lia | lia].
      * destruct (Zpos X - Zpos H) as [|p|p] eqn:HM; cbn [binary_normalize].
        -- reflexivity.
        -- apply SFleb_below, round_below; [exact Hcan | lia | lia | lia].
        -- rewrite binary_round_opp. apply SFleb_opp_nonneg, round_nonneg.
Qed.

(** Adding a number that is not negative does not lower a finite number,
    whatever the rounding. *)
Lemma SFadd_leb (x h : spec_float) :
  SFregular x -> SFpositive h -> SFleb x (SFadd prec emax x h) = true.
Proof.
  destruct x as [sx| | |sx mx ex]; try (intros []; fail).
  - intros _. destruct h as [sh|[]| |[] mh eh]; try (intros []; fail);
      intros _; destruct sx; try reflexivity; destruct sh; reflexivity.
  - intros [Hcan Hex].
    destruct h as [sh|[]| |[] mh eh]; try (intros []; fail); intros _.
    + apply SFleb_refl_finite.
    + now destruct sx.
    + cbn [SFadd]. set (ez := Z.min ex eh).
      pose proof (shl_align_fst mx ex ez ltac:(lia)) as HX.
      pose proof (shl_align_fst mh eh ez ltac:(lia)) as HH.
      set (X := fst (shl_align mx ex ez)) in *.
      set (H := fst (shl_align mh eh ez)) in *.
      destruct sx; cbn [cond_Zopp].
      * change (- Zpos X) with (Z.neg X).
        destruct (Z.neg X + Zpos H) as [|p|p] eqn:HM; cbn [binary_normalize].
        -- reflexivity.
        -- apply SFleb_neg_nonneg, round_nonneg.
        -- rewrite binary_round_opp.
           apply SFleb_opp_below, round_below; [exact Hcan | lia | lia | lia].
      * change (Zpos X + Zpos H) with (Zpos (X + H)).
        cbn [binary_normalize].
        apply SFleb_above, round_above; [exact Hcan | lia | lia].
Qed.

(** *** Exponents of the results *)

Lemma SFsized_le (lo lo' : Z) (f : spec_float) :
  lo' <= lo -> SFsized lo f -> SFsized lo' f.
Proof. destruct f; cbn; lia. Qed.

Lemma rounded_sized (sx : bool) (m2 E : Z) :
  0 <= m2 -> SFsized E (rounded sx m2 E).
Proof.
  intros Hm2. unfold rounded.
  set (X2 := Z.max 0 _).
  assert (Hq : 0 <= m2 / 2 ^ X2)
    by (apply Z.div_pos; [lia | apply Z.pow_pos_nonneg; lia]).
  destruct (m2 / 2 ^ X2) as [|q|q]; [exact I | | lia].
  destruct (_ <=? 971); cbn; lia.
Qed.

(** Rounding [m * 2 ^ e] lowers the exponent by at most 52. *)
Lemma round_sized (sx : bool) (m : positive) (e : Z) :
  SFsized (e - 52) (binary_round prec emax sx m e).
Proof.
  pose proof (binary_round_spec sx m e) as Hspec. cbv zeta in Hspec.
  pose proof (Zdigits2_pos (Zpos m) ltac:(lia)) as Hd.
  set (E := fexp64 (Zdigits2 (Zpos m) + e)) in *.
  assert (HE : e - 52 <= E) by (subst E; rewrite fexp64_eq; lia).
  destruct Hspec as [Hexact Hround].
  destruct (Z_le_gt_dec E e) as [HEe | HEe].
  - destruct (Hexact HEe) as (mz & _ & ->). now destruct (E <=? 971).
  - destruct (Hround ltac:(lia)) as (m2 & Hb & _ & ->).
    apply SFsized_le with E; [lia|]. apply rounded_sized.
    assert (0 <= Zpos m / 2 ^ (E - e))
      by (apply Z.div_pos; [lia | apply Z.pow_pos_nonneg; lia]).
    lia.
Qed.

Lemma binary_normalize_sized (m e : Z) :
  SFsized (e - 52) (binary_normalize prec emax m e false).
Proof. destruct m; [exact I | apply round_sized | apply round_sized]. Qed.

Lemma SFsub_sized (lo : Z) (x h : spec_float) :
  SFregular x -> SFpositive h -> SFsized lo x -> SFsized lo h ->
  SFsized (lo - 52) (SFsub prec emax x h).
Proof.
  destruct x as [sx| | |sx mx ex]; try (intros []; fail); intros _;
    destruct h as [sh|[]| |[] mh eh]; try (intros []; fail); intros _;
    cbn [SFsized]; intros Hx Hh;
    try (cbn [SFsub]; eapply SFsized_le; [|apply binary_normalize_sized];
         lia);
    try (destruct sx; try destruct sh; cbn; first [exact I | lia]).
Qed.

Lemma SFadd_sized (lo : Z) (x h : spec_float) :
  SFregular x -> SFpositive h -> SFsized lo x -> SFsized lo h ->
  SFsized (lo - 52) (SFadd prec emax x h).
Proof.
  destruct x as [sx| | |sx mx ex]; try (intros []; fail); intros _;
    destruct h as [sh|[]| |[] mh eh]; try (intros []; fail); intros _;
    cbn [SFsized]; intros Hx Hh;
    try (cbn [SFadd]; eapply SFsized_le; [|apply binary_normalize_sized];
         lia);
    try (destruct sx; try destruct sh; cbn; first [exact I | lia]).
Qed.

(** *** Dividing by a power of two *)

Lemma canonical_normal (m : positive) (e : Z) :
  canonical m e -> -1074 < e -> Zdigits2 (Zpos m) = 53.
Proof. unfold canonical. rewrite fexp64_eq. lia. Qed.

(** Dividing a number that is far enough from the subnormal range by
    [2 ^ j] only lowers its exponent. *)
Lemma SFdiv_pow2 (j : Z) (sx : bool) (mx : positive) (ex : Z) :
  0 <= j -> canonical mx ex -> ex <= 971 -> j - 1073 <= ex ->
  SFdiv prec emax (S754_finite sx mx ex) (pow2 j)
  = S754_finite sx mx (ex - j).
Proof.
  intros Hj Hcan Hex Hlo.
  pose proof (canonical_normal mx ex Hcan ltac:(lia)) as Hd.
  unfold pow2. cbn [SFdiv]. unfold SFdiv_core_binary.
  rewrite Hd.
  change (Zdigits2 4503599627370496) with 53.
  fold (fexp64 (53 + ex - (53 + (j - 52)))).
  replace (Z.min (fexp64 (53 + ex - (53 + (j - 52)))) (ex - (j - 52)))
    with (ex - j - 1) by (rewrite fexp64_eq; lia).
  replace (ex - (j - 52) - (ex - j - 1)) with 53 by lia.
  rewrite Z.shiftl_mul_pow2 by lia.
  assert (Hdiv : Z.div_eucl (Zpos mx * 2 ^ 53) 4503599627370496
                 = (Zpos mx~0, 0)).
  { pose proof (Z.div_eucl_eq (Zpos mx * 2 ^ 53) 4503599627370496
                  ltac:(lia)) as Heq.
    pose proof (Z.mod_pos_bound (Zpos mx * 2 ^ 53) 4503599627370496
                  ltac:(lia)) as Hmod.
    unfold Z.modulo in Hmod.
    destruct (Z.div_eucl (Zpos mx * 2 ^ 53) 4503599627370496) as [q r].
    change (2 ^ 53) with 9007199254740992 in *.
    f_equal; lia. }
  rewrite Hdiv.
  change (new_location 4503599627370496 0) with loc_Exact.
  destruct (binary_round_aux_exact (xorb sx false) (Zpos mx~0) (ex - j - 1)
              ltac:(lia)) as (m2 & _ & Hm2 & ->).
  assert (Hd2 : Zdigits2 (Zpos mx~0) = 54).
  { change (Zpos mx~0) with (2 * Zpos mx).
    replace (2 * Zpos mx) with (Zpos mx * 2 ^ 1) by lia.
    rewrite Zdigits2_shift by lia. lia. }
  rewrite Hd2 in *.
  replace (Z.max 0 (fexp64 (54 + (ex - j - 1)) - (ex - j - 1))) with 1 in *
    by (rewrite fexp64_eq; lia).
  rewrite Hm2 by (exists (Zpos mx); lia).
  replace (Zpos mx~0 / 2 ^ 1) with (Zpos mx)
    by (change (2 ^ 1) with 2; change (Zpos mx~0) with (2 * Zpos mx);
        symmetry; rewrite Z.mul_comm; apply Z.div_mul; lia).
  unfold rounded. rewrite Hd.
  replace (Z.max 0 (fexp64 (53 + (ex - j - 1 + 1)) - (ex - j - 1 + 1)))
    with 0 by (rewrite fexp64_eq; lia).
  change (2 ^ 0) with 1. rewrite Z.div_1_r.
  replace (ex - j - 1 + 1 + 0) with (ex - j) by lia.
  replace (ex - j <=? 971) with true by (symmetry; apply Z.leb_le; lia).
  now destruct sx.
Qed.

Lemma compare_sub (a b j : Z) : (a - j ?= b - j) = (a ?= b).
Proof.
  destruct (Z.compare_spec a b);
    [apply Z.compare_eq_iff | apply Z.compare_lt_iff
     | apply Z.compare_gt_iff]; lia.
Qed.

(** Division by [2 ^ j] keeps the order of such numbers. *)
Lemma SFdiv_pow2_leb (j : Z) (a b : spec_float) :
  0 <= j ->
  SFvalidSized (j - 1073) a -> SFvalidSized (j - 1073) b ->
  SFleb a b = true ->
  SFleb (SFdiv prec emax a (pow2 j)) (SFdiv prec emax b (pow2 j)) = true.
Proof.
  intros Hj Ha Hb Hab.
  destruct a as [sa|sa| |sa ma ea]; try (destruct Ha; fail);
    destruct b as [sb|sb| |sb mb eb]; try (destruct Hb; fail);
    try (destruct Ha as (Hca & Hea & Hla); rewrite (SFdiv_pow2 j sa ma ea)
           by assumption);
    try (destruct Hb as (Hcb & Heb & Hlb); rewrite (SFdiv_pow2 j sb mb eb)
           by assumption);
    try (destruct sa; destruct sb; exact Hab).
  unfold SFleb, SFcompare in *. rewrite compare_sub. exact Hab.
Qed.

Lemma valid_canonical (s : bool) (m : positive) (e : Z) :
  valid_binary (S754_finite s m e) = true -> canonical m e /\ e <= 971.
Proof.
  cbn. unfold bounded, canonical_mantissa.
  rewrite andb_true_iff, Z.eqb_eq, Z.leb_le. intros [H1 H2].
  split; [exact H1 | exact H2].
Qed.

Lemma valid_sized (lo : Z) (f : spec_float) :
  valid_binary f = true -> SFsized lo f -> SFvalidSized lo f.
Proof.
  destruct f as [s|s| |s m e]; cbn [SFsized SFvalidSized]; auto.
  intros Hv Hlo. destruct (valid_canonical s m e Hv). auto.
Qed.

(** ** The order of the corners of a box *)

(** A finite number of binary32 magnitude is zero or has an exponent of at
    least -201, that of [2 ^ -149] with a mantissa of 53 digits. *)
Lemma float32Sized_spec (x : number) :
  isFinite x = true -> float32Sized x = true ->
  SFregular (Prim2SF x) /\ SFsized (-201) (Prim2SF x).
Proof.
  rewrite isFinite_Prim2SF. unfold float32Sized.
  rewrite FloatAxioms.eqb_spec, FloatAxioms.leb_spec, FloatAxioms.abs_spec.
  pose proof (Prim2SF_valid x) as Hv.
  destruct (Prim2SF x) as [s|s| |s m e]; try discriminate; intros _.
  - intros _. split; exact I.
  - replace (Prim2SF 0%float) with (S754_zero false) by reflexivity.
    replace (Prim2SF 0x1p-149%float)
      with (S754_finite false 4503599627370496 (-201)) by reflexivity.
    intros Hs. split; [exact (valid_canonical s m e Hv)|].
    apply orb_true_iff in Hs as [Hs | Hs].
    + unfold SFeqb, SFcompare in Hs. destruct s; discriminate.
    + cbn [SFabs] in Hs. cbn [SFsized]. unfold SFleb, SFcompare in Hs.
      destruct (Z.compare_spec (-201) e); first [lia | discriminate].
Qed.

Lemma nonnegative_spec (x : number) :
  (0 <=? x)%float = true -> SFpositive (Prim2SF x).
Proof.
  rewrite FloatAxioms.leb_spec.
  replace (Prim2SF 0%float) with (S754_zero false) by reflexivity.
  destruct (Prim2SF x) as [s|[]| |[] m e]; try discriminate; intros _;
    exact I.
Qed.

Lemma half_spec (h : spec_float) :
  SFregular h -> SFpositive h -> SFsized (-201) h ->
  SFpositive (SFdiv prec emax h (pow2 1))
  /\ SFsized (-202) (SFdiv prec emax h (pow2 1)).
Proof.
  destruct h as [s| | |s m e]; try (intros []; fail).
  - intros _ _ _. destruct s; split; exact I.
  - intros [Hcan He] Hs Hlo. cbn [SFsized] in Hlo.
    rewrite SFdiv_pow2 by (assumption || lia).
    destruct s; [destruct Hs|]. split; [exact I|]. cbn. lia.
Qed.

(** For a finite centre and a finite size that is not negative, both of
    binary32 magnitude, the corner [(centre - size / 2) / IMG_SIZE] is at
    most the corner [(centre + size / 2) / IMG_SIZE]. *)
Lemma corners_ordered (centre size : number) :
  isFinite centre = true -> isFinite size = true ->
  float32Sized centre = true -> float32Sized size = true ->
  (0 <=? size)%float = true ->
  ((centre - size / 2) / num IMG_SIZE
   <=? (centre + size / 2) / num IMG_SIZE)%float = true.
Proof.
  intros Hfc Hfs Hsc Hss Hpos.
  destruct (float32Sized_spec centre Hfc Hsc) as [Hrc Hlc].
  destruct (float32Sized_spec size Hfs Hss) as [Hrs Hls].
  pose proof (nonnegative_spec size Hpos) as Hps.
  destruct (half_spec _ Hrs Hps Hls) as [Hph Hlh].
  pose proof (Prim2SF_valid (centre - size / 2)) as Hva.
  pose proof (Prim2SF_valid (centre + size / 2)) as Hvb.
  assert (Hab : (centre - size / 2 <=? centre + size / 2)%float = true).
  { apply leb_trans with centre.
    - rewrite FloatAxioms.leb_spec, FloatAxioms.sub_spec,
        FloatAxioms.div_spec.
      apply SFsub_leb; assumption.
    - rewrite FloatAxioms.leb_spec, FloatAxioms.add_spec,
        FloatAxioms.div_spec.
      apply SFadd_leb; assumption. }
  rewrite FloatAxioms.leb_spec in Hab |- *.
  rewrite !(FloatAxioms.div_spec _ (num IMG_SIZE)).
  replace (Prim2SF (num IMG_SIZE)) with (pow2 7) by reflexivity.
  rewrite FloatAxioms.sub_spec, FloatAxioms.div_spec in Hab, Hva |- *.
  rewrite FloatAxioms.add_spec, FloatAxioms.div_spec in Hab, Hvb |- *.
  apply SFdiv_pow2_leb; [lia | | | exact Hab].
  - apply valid_sized; [exact Hva|].
    apply SFsized_le with (-202 - 52); [lia|].
    apply SFsub_sized; try assumption.
    apply SFsized_le with (-201); [lia | exact Hlc].
  - apply valid_sized; [exact Hvb|].
    apply SFsized_le with (-202 - 52); [lia|].
    apply SFadd_sized; try assumption.
    apply SFsized_le with (-201); [lia | exact Hlc].
Qed.

(** The corner values of a box with finite centre and size are numbers. *)
Lemma corner_number (centre size : number) :
  isFinite centre = true -> isFinite size = true ->
  is_nan ((centre - size / 2) / num IMG_SIZE)%float = false
  /\ is_nan ((centre + size / 2) / num IMG_SIZE)%float = false.
Proof.
  intros Hc Hs. apply isFinite_number in Hs.
  assert (Hhalf : is_nan (size / 2)%float = false)
    by (apply div_number; [reflexivity | exact Hs]).
  split; (apply div_number; [reflexivity|]).
  - now apply sub_number.
  - now apply add_number.
Qed.

(** ** [Math.max], [Math.min] and the two clamps *)

Section MathFacts.
Implicit Types a b v : number.

Lemma Math_max_nan a b :
  is_nan a = true \/ is_nan b = true -> Math_max a b = NaN.
Proof.
  unfold Math_max. intros [-> | ->]; [reflexivity|].
  now rewrite orb_true_r.
Qed.

Lemma Math_min_nan a b :
  is_nan a = true \/ is_nan b = true -> Math_min a b = NaN.
Proof.
  unfold Math_min. intros [-> | ->]; [reflexivity|].
  now rewrite orb_true_r.
Qed.

(** Without [NaN], [Math.max] returns one of its arguments, above both. *)
Lemma Math_max_spec a b :
  is_nan a = false -> is_nan b = false ->
  (Math_max a b = a \/ Math_max a b = b)
  /\ (a <=? Math_max a b)%float = true
  /\ (b <=? Math_max a b)%float = true.
Proof.
  intros Ha Hb. unfold Math_max. rewrite Ha, Hb. cbn [orb].
  destruct (a <? b)%float eqn:Hab.
  { repeat split; auto with number_order. }
  destruct (b <? a)%float eqn:Hba.
  { repeat split; auto with number_order. }
  destruct (get_sign a);
    repeat split; auto with number_order.
Qed.

(** Without [NaN], [Math.min] returns one of its arguments, below both. *)
Lemma Math_min_spec a b :
  is_nan a = false -> is_nan b = false ->
  (Math_min a b = a \/ Math_min a b = b)
  /\ (Math_min a b <=? a)%float = true
  /\ (Math_min a b <=? b)%float = true.
Proof.
  intros Ha Hb. unfold Math_min. rewrite Ha, Hb. cbn [orb].
  destruct (a <? b)%float eqn:Hab.
  { repeat split; auto with number_order. }
  destruct (b <? a)%float eqn:Hba.
  { repeat split; auto with number_order. }
  destruct (get_sign a);
    repeat split; auto with number_order.
Qed.

Lemma Math_max_not_nan a b :
  is_nan a = false -> is_nan b = false -> is_nan (Math_max a b) = false.
Proof.
  intros Ha Hb. destruct (Math_max_spec a b Ha Hb) as [[-> | ->] _]; auto.
Qed.

Lemma Math_min_not_nan a b :
  is_nan a = false -> is_nan b = false -> is_nan (Math_min a b) = false.
Proof.
  intros Ha Hb. destruct (Math_min_spec a b Ha Hb) as [[-> | ->] _]; auto.
Qed.

Lemma Math_max_mono a b c :
  is_nan c = false ->
  (a <=? b)%float = true ->
  (Math_max c a <=? Math_max c b)%float = true.
Proof.
  intros Hc Hab. destruct (leb_nan _ _ Hab) as [Ha Hb].
  destruct (Math_max_spec c a Hc Ha) as [Hsel _].
  destruct (Math_max_spec c b Hc Hb) as (_ & Hcb & Hbb).
  destruct Hsel as [-> | ->]; eauto with number_order.
Qed.

Lemma Math_min_mono a b c :
  is_nan c = false ->
  (a <=? b)%float = true ->
  (Math_min c a <=? Math_min c b)%float = true.
Proof.
  intros Hc Hab. destruct (leb_nan _ _ Hab) as [Ha Hb].
  destruct (Math_min_spec c b Hc Hb) as [Hsel _].
  destruct (Math_min_spec c a Hc Ha) as (_ & Hca & Haa).
  destruct Hsel as [-> | ->]; eauto with number_order.
Qed.

(** [clampCoord] puts every number into [[0, 1]], keeps [NaN], and keeps
    the order of its arguments. *)
Lemma clampCoord_range v :
  is_nan v = false ->
  (0 <=? clampCoord v)%float = true /\ (clampCoord v <=? 1)%float = true.
Proof.
  intros Hv. unfold clampCoord.
  assert (H1 : is_nan 1%float = false) by reflexivity.
  assert (H0 : is_nan 0%float = false) by reflexivity.
  destruct (Math_min_spec 1%float v H1 Hv) as (_ & Hle1 & _).
  pose proof (Math_min_not_nan _ _ H1 Hv) as Hm.
  destruct (Math_max_spec 0%float _ H0 Hm) as (Hsel & Hge0 & _).
  split; [exact Hge0|].
  destruct Hsel as [-> | ->]; [reflexivity | exact Hle1].
Qed.

Lemma clampCoord_nan v : is_nan v = true -> clampCoord v = NaN.
Proof.
  intros Hv. unfold clampCoord.
  rewrite (Math_min_nan 1%float v) by auto. reflexivity.
Qed.

Lemma clampCoord_mono a b :
  (a <=? b)%float = true -> (clampCoord a <=? clampCoord b)%float = true.
Proof.
  intros Hab. unfold clampCoord.
  apply Math_max_mono; [reflexivity|].
  apply Math_min_mono; [reflexivity | exact Hab].
Qed.

Lemma normalizeScore_range m :
  is_nan m = false ->
  (0 <=? normalizeScore m)%float = true
  /\ (normalizeScore m <=? 1)%float = true.
Proof.
  intros Hm. unfold normalizeScore.
  assert (H1 : is_nan 1%float = false) by reflexivity.
  assert (H0 : is_nan 0%float = false) by reflexivity.
  destruct (Math_max_spec m 0%float Hm H0) as (_ & _ & Hge0).
  pose proof (Math_max_not_nan _ _ Hm H0) as Hx.
  destruct (Math_min_spec _ 1%float Hx H1) as (Hsel & _ & Hle1).
  split; [|exact Hle1].
  destruct Hsel as [-> | ->]; [exact Hge0 | reflexivity].
Qed.

(** A positive score goes through [Math.max(_, 0)] unchanged. *)
Lemma Math_max_positive (m : number) :
  (0 <? m)%float = true -> Math_max m 0%float = m.
Proof.
  intros Hpos. unfold Math_max.
  destruct (ltb_nan _ _ Hpos) as [_ ->]. cbn [orb].
  change (is_nan 0%float) with false. cbn [orb].
  rewrite (leb_nltb _ _ (ltb_leb _ _ Hpos)), Hpos. reflexivity.
Qed.

Lemma Math_min_leb_l (a b : number) :
  is_nan a = false -> is_nan b = false -> (Math_min a b <=? a)%float = true.
Proof. intros Ha Hb. now destruct (Math_min_spec a b Ha Hb) as (_ & H & _). Qed.

(** The only number equal to 1 is 1 itself. *)
Lemma eqb_one (m : number) : (m =? 1)%float = true -> m = 1%float.
Proof.
  intros H. apply Prim2SF_inj. rewrite FloatAxioms.eqb_spec in H.
  replace (Prim2SF 1%float)
    with (S754_finite false 4503599627370496 (-52)) in * by reflexivity.
  destruct (Prim2SF m) as [s|s| |s mm e]; try discriminate H.
  - destruct s; discriminate H.
  - unfold SFeqb, SFcompare in H. destruct s; try discriminate H.
    destruct (e ?= -52) eqn:He; try discriminate H.
    apply Z.compare_eq in He.
    destruct (Pos.compare_cont Eq mm 4503599627370496) eqn:Hm;
      try discriminate H.
    apply Pos.compare_eq in Hm. now subst.
Qed.

(** [Math.min(_, 1)] keeps a number that is at most 1 and replaces a number
    above 1 by 1. *)
Lemma Math_min_one_kept (m : number) :
  (m <=? 1)%float = true -> Math_min m 1%float = m.
Proof.
  intros Hle. unfold Math_min.
  destruct (leb_nan _ _ Hle) as [Hm _]. rewrite Hm. cbn [orb].
  change (is_nan 1%float) with false. cbv iota.
  destruct (m <? 1)%float eqn:Hlt; [reflexivity|].
  rewrite (leb_nltb _ _ Hle).
  destruct (get_sign m); [reflexivity|].
  symmetry. apply eqb_one.
  apply nltb_eqb; [exact Hm | reflexivity | exact Hlt |].
  now apply leb_nltb.
Qed.

Lemma Math_min_one_capped (m : number) :
  (1 <? m)%float = true -> Math_min m 1%float = 1%float.
Proof.
  intros Hlt. unfold Math_min.
  destruct (ltb_nan _ _ Hlt) as [_ ->]. cbn [orb].
  change (is_nan 1%float) with false. cbv iota.
  rewrite (leb_nltb _ _ (ltb_leb _ _ Hlt)), Hlt. reflexivity.
Qed.

Lemma ltb_trans (x y z : float) :
  (x <? y)%float = true -> (y <? z)%float = true -> (x <? z)%float = true.
Proof. by_rank. Qed.

End MathFacts.

(** ** The [for] loop *)

Section ForRange.
Context {S : Type}.
Implicit Types (n k : Z) (body : Z -> S -> S) (s : S).

Lemma for_range_nonpos n body s : n <= 0 -> for_range n body s = s.
Proof.
  intros Hn. unfold for_range.
  replace (Z.to_nat n) with 0%nat by lia. reflexivity.
Qed.

Lemma for_range_succ n body s :
  0 <= n -> for_range (n + 1) body s = body n (for_range n body s).
Proof.
  intros Hn. unfold for_range.
  replace (Z.to_nat (n + 1)) with (Datatypes.S (Z.to_nat n)) by lia.
  rewrite seq_S, fold_left_app. cbn.
  now rewrite Z2Nat.id by lia.
Qed.

(** Loop invariant rule: [P k] holds of the state before iteration [k]. *)
Lemma for_range_ind (P : Z -> S -> Prop) n body s :
  P 0 s ->
  (forall k a, 0 <= k < n -> P k a -> P (k + 1) (body k a)) ->
  P (Z.max 0 n) (for_range n body s).
Proof.
  intros H0 Hstep.
  destruct (Z.le_gt_cases n 0) as [Hn | Hn].
  { rewrite for_range_nonpos by lia.
    now replace (Z.max 0 n) with 0 by lia. }
  replace (Z.max 0 n) with n by lia.
  rewrite <- (Z2Nat.id n) at 1 2 by lia.
  assert (Hle : (Z.to_nat n <= Z.to_nat n)%nat) by lia.
  revert Hle. generalize (Z.to_nat n) at 1 3 4 as m.
  induction m as [|m IH]; intros Hle.
  - now rewrite for_range_nonpos by lia.
  - replace (Z.of_nat (Datatypes.S m)) with (Z.of_nat m + 1) by lia.
    rewrite for_range_succ by lia.
    apply Hstep; [lia | apply IH; lia].
Qed.

End ForRange.

(** Two loops over the same range, related step by step. *)
Lemma for_range_rel {S S' : Type} (R : S -> S' -> Prop) (n : Z)
  (body : Z -> S -> S) (body' : Z -> S' -> S') (s : S) (s' : S') :
  R s s' ->
  (forall k a a', 0 <= k < n -> R a a' -> R (body k a) (body' k a')) ->
  R (for_range n body s) (for_range n body' s').
Proof.
  intros H0 Hstep.
  destruct (Z.le_gt_cases n 0) as [Hn | Hn].
  { now rewrite !for_range_nonpos by lia. }
  rewrite <- (Z2Nat.id n) at 1 2 by lia.
  assert (Hle : (Z.to_nat n <= Z.to_nat n)%nat) by lia.
  revert Hle. generalize (Z.to_nat n) at 1 3 4 as m.
  induction m as [|m IH]; intros Hle.
  - now rewrite !for_range_nonpos by lia.
  - replace (Z.of_nat (Datatypes.S m)) with (Z.of_nat m + 1) by lia.
    rewrite !for_range_succ by lia.
    apply Hstep; [lia | apply IH; lia].
Qed.

(** ** The scan over the class rows *)

Section ScanFacts.
Implicit Types x y z : float.

Lemma nltb_ltb_nltb x y z :
  (y <? x)%float = false -> (y <? z)%float = true ->
  (z <? x)%float = false.
Proof. by_rank. Qed.

Lemma nltb_ltb_neqb x y z :
  (y <? x)%float = false -> (y <? z)%float = true ->
  (x =? z)%float = false.
Proof. by_rank. Qed.

Lemma ltb_irrefl x : (x <? x)%float = false.
Proof. by_rank. Qed.

Lemma eqb_eqb_eqb x y z :
  (x =? z)%float = true -> (y =? z)%float = true -> (x =? y)%float = true.
Proof. by_rank. Qed.

Lemma eqb_zero_nltb x : (x =? 0)%float = true -> (0 <? x)%float = false.
Proof. by_rank. Qed.

Lemma scanInv_step (s : Z -> number) (k : Z) (st : number * Z) :
  0 <= k ->
  scanInv s k st ->
  scanInv s (k + 1)
    (if gt (s k) st.1 then (s k, k) else st).
Proof.
  destruct st as [m c]. unfold scanInv, gt. cbn [fst snd].
  intros Hk (Hm & Hub & Hsel).
  destruct (m <? s k)%float eqn:Hlt.
  - split; [eauto with number_order|].
    split.
    + intros j Hj. destruct (Z.eq_dec j k) as [-> | Hne].
      * apply ltb_irrefl.
      * eapply nltb_ltb_nltb; [apply Hub; lia | exact Hlt].
    + right. repeat split; try lia.
      * eauto with number_order.
      * intros j Hj. eapply nltb_ltb_neqb; [apply Hub; lia | exact Hlt].
  - split; [exact Hm|]. split.
    + intros j Hj. destruct (Z.eq_dec j k) as [-> | Hne]; [exact Hlt|].
      apply Hub; lia.
    + destruct Hsel as [Hsel | (Hc & Hsel)]; [left; exact Hsel|].
      right. split; [lia | exact Hsel].
Qed.

Lemma classScan_inv (data : list number) (numDetections numClasses i : Z) :
  scanInv (classScore data numDetections i) (Z.max 0 numClasses)
    (classScan data numDetections numClasses i).
Proof.
  unfold classScan. apply for_range_ind.
  - cbn. split; [reflexivity|]. split; [intros; lia | now left].
  - intros k [m c] Hk Hinv.
    apply (scanInv_step (classScore data numDetections i) k (m, c));
      [lia | exact Hinv].
Qed.

Lemma normalizeScore_scan (data : list number)
  (numDetections numClasses i : Z) :
  let ns :=
    normalizeScore (classScan data numDetections numClasses i).1 in
  (0 <=? ns)%float = true /\ (ns <=? 1)%float = true.
Proof.
  pose proof (classScan_inv data numDetections numClasses i) as Hinv.
  destruct (classScan _ _ _ _) as [m c]. destruct Hinv as (Hm & _).
  apply normalizeScore_range. now apply leb_nan in Hm.
Qed.

End ScanFacts.

(** ** The loop over the candidates *)

Section CandidateLoop.
Variables (t : number) (dat : list number) (nD nC : Z).

Lemma decodeCandidate_eq (i : Z) (dets : list Detection) :
  decodeCandidate t dat nD nC i dets =
  dets ++ (if acceptedAt t dat nD nC i
           then [detectionAt dat nD nC i] else []).
Proof.
  unfold decodeCandidate, acceptedAt, detectionAt, rawBox.
  destruct (classScan dat nD nC i) as [m c]. cbn [fst snd].
  destruct (accepted t (normalizeScore m) c); [reflexivity|].
  now rewrite app_nil_r.
Qed.

Lemma decode_In (d : Detection) :
  In d (for_range nD (decodeCandidate t dat nD nC) []) ->
  exists i, 0 <= i < nD
            /\ acceptedAt t dat nD nC i = true
            /\ d = detectionAt dat nD nC i.
Proof.
  revert d.
  apply (for_range_ind
           (fun k dets => forall d, In d dets ->
              exists i, 0 <= i < nD /\ acceptedAt t dat nD nC i = true
                        /\ d = detectionAt dat nD nC i)).
  - intros d [].
  - intros k dets Hk IH d. rewrite decodeCandidate_eq, in_app_iff.
    intros [Hin | Hin]; [now apply IH|].
    destruct (acceptedAt t dat nD nC k) eqn:Hacc; [|destruct Hin].
    destruct Hin as [<- | []]. exists k. auto.
Qed.

Lemma decode_none :
  (forall i, 0 <= i < nD -> acceptedAt t dat nD nC i = false) ->
  for_range nD (decodeCandidate t dat nD nC) [] = [].
Proof.
  intros Hrej.
  apply (for_range_ind (fun _ dets => dets = [])); [reflexivity|].
  intros k dets Hk ->. rewrite decodeCandidate_eq, Hrej by lia.
  reflexivity.
Qed.

End CandidateLoop.

(** ** The decoder as a whole *)

Section DecoderFacts.
Implicit Types (t : number) (o : Tensor) (dat : list number).

Lemma processDetections_dims t o (batch nO nD : Z) (rest : list Z) :
  dims o = batch :: nO :: nD :: rest ->
  processDetections t o =
  for_range nD (decodeCandidate t (data o) nD (nO - 4)) [].
Proof. unfold processDetections. now intros ->. Qed.

Lemma processDetections_short t o :
  (length (dims o) < 3)%nat -> processDetections t o = [].
Proof.
  unfold processDetections.
  destruct (dims o) as [|? [|? [|? ?]]]; cbn; intros; try reflexivity; lia.
Qed.

(** A column without a positive class score leaves the scan at its
    initial state. *)
Lemma classScan_no_positive dat (nD nC i : Z) :
  (forall j, 0 <= j < nC -> (0 <? classScore dat nD i j)%float = false) ->
  classScan dat nD nC i = (0%float, 0).
Proof.
  intros Hnp. pose proof (classScan_inv dat nD nC i) as Hinv.
  destruct (classScan dat nD nC i) as [m c].
  destruct Hinv as (_ & _ & [[-> ->] | (Hc & -> & Hpos & _)]);
    [reflexivity|].
  rewrite Hnp in Hpos by lia. discriminate.
Qed.

Lemma acceptedAt_zero_scan t dat (nD nC i : Z) :
  classScan dat nD nC i = (0%float, 0) ->
  acceptedAt t dat nD nC i = (t <? 0)%float.
Proof.
  unfold acceptedAt, accepted, gt. intros ->. cbn [fst snd].
  change (normalizeScore 0%float) with 0%float.
  now rewrite andb_true_r.
Qed.

Lemma acceptedAt_antitone (t1 t2 : number) dat (nD nC i : Z) :
  (t1 <=? t2)%float = true ->
  acceptedAt t2 dat nD nC i = true -> acceptedAt t1 dat nD nC i = true.
Proof.
  unfold acceptedAt, accepted, gt. intros Hle.
  rewrite !andb_true_iff. intros [Hgt Hid]. split; [|exact Hid].
  eauto with number_order.
Qed.

(** The decoder is a filter over the candidate columns, in index order. *)
Lemma decode_flat_map t dat (nD nC : Z) :
  for_range nD (decodeCandidate t dat nD nC) [] =
  flat_map (fun k => if acceptedAt t dat nD nC (Z.of_nat k)
                     then [detectionAt dat nD nC (Z.of_nat k)] else [])
           (seq 0 (Z.to_nat nD)).
Proof.
  unfold for_range. generalize (seq 0 (Z.to_nat nD)) as l.
  enough (H : forall l acc,
             fold_left (fun s k => decodeCandidate t dat nD nC (Z.of_nat k) s)
               l acc
             = acc ++ flat_map
                        (fun k => if acceptedAt t dat nD nC (Z.of_nat k)
                                  then [detectionAt dat nD nC (Z.of_nat k)]
                                  else []) l)
    by (intros l; apply (H l [])).
  induction l as [|k l IH]; intros acc; cbn [fold_left flat_map].
  - now rewrite app_nil_r.
  - rewrite IH, decodeCandidate_eq, <- app_assoc. reflexivity.
Qed.

End DecoderFacts.

(* ================================================================= *)
(** * Part III: the claims *)
(* ================================================================= *)

(** ** The decoder on a small tensor *)

(** Shape [[1,5,2]]: four box rows and one class row, two candidates.
    Candidate 0 scores 0.75 and candidate 1 scores 0.25; at threshold 0.5
    only candidate 0 is returned, with its box in corner form. *)
Example decode_two_candidates :
  processDetections 0.5%float
    (mkTensor [1; 5; 2] [64; 32; 64; 32; 20; 10; 20; 10; 0.75; 0.25]%float)
  = [ {| classId := 0;
         score := 0.75%float;
         bbox := (0.421875, 0.421875, 0.578125, 0.578125)%float;
         className := "angry" |} ].
Proof. vm_compute. reflexivity. Qed.

(** A tensor shorter than its shape announces: the missing entries read as
    [undefined], the comparisons with them are false, and the box of an
    accepted candidate carries [NaN]. *)
Example decode_short_data :
  map bbox (processDetections 0.5%float
              (mkTensor [1; 6; 1] [64; 64; 20; 20; 0.75]%float))
  = [(0.421875, 0.421875, 0.578125, 0.578125)%float]
  /\ map bbox (processDetections (-1)%float (mkTensor [1; 5; 1] [64]%float))
     = [(NaN, NaN, NaN, NaN)].
Proof. split; vm_compute; reflexivity. Qed.

(** ** C1: tensors outside the shape contract *)

(** C1, as stated, fails: a tensor whose shape breaks the contract is not
    rejected.  With a leading dimension of 2, or with a fourth dimension,
    the decoder reads [numOutputs] and [numDetections] from positions 1
    and 2 as usual and returns the detection it finds. *)
Lemma C1_malformed_shape_is_decoded :
  shapeContract [2; 5; 1] = false
  /\ length (processDetections 0.5%float
               (mkTensor [2; 5; 1]
                  [64; 64; 20; 20; 0.75; 0; 0; 0; 0; 0]%float)) = 1%nat
  /\ shapeContract [1; 5; 1; 1] = false
  /\ length (processDetections 0.5%float
               (mkTensor [1; 5; 1; 1] [64; 64; 20; 20; 0.75]%float)) = 1%nat.
Proof. repeat split; vm_compute; reflexivity. Qed.

(** C1, amended: when [dims] has fewer than three entries, or [numOutputs]
    (its entry 1) is at most 4 so that there is no class row, as for shape
    [[1,3,2]], and the confidence threshold is not negative, the decoder
    returns the empty list.  [processDetections] is a total function: it has
    no failing path on a tensor. *)
Theorem C1_no_class_rows_no_detections
  (confidenceThreshold : number) (output : Tensor) :
  (confidenceThreshold <? 0)%float = false ->
  (length (dims output) < 3)%nat
  \/ (exists numOutputs,
        dims output !! 1%nat = Some numOutputs /\ numOutputs <= 4) ->
  processDetections confidenceThreshold output = [].
Proof.
  intros Ht [Hshort | (nO & Hlook & HnO)].
  { now apply processDetections_short. }
  destruct (dims output) as [|batch [|nO' [|nD rest]]] eqn:Hdims;
    try (unfold processDetections; rewrite Hdims; reflexivity).
  cbn in Hlook. injection Hlook as ->.
  rewrite (processDetections_dims _ _ _ _ _ _ Hdims).
  apply decode_none. intros i _.
  rewrite acceptedAt_zero_scan; [exact Ht|].
  apply classScan_no_positive. intros j Hj. lia.
Qed.

Lemma C1_no_class_rows_no_detections_witness :
  processDetections 0.5%float
    (mkTensor [1; 3; 2] [1; 2; 3; 4; 5; 6]%float) = [].
Proof.
  apply C1_no_class_rows_no_detections.
  - vm_compute; reflexivity.
  - right. exists 3. split; [reflexivity | lia].
Defined.

(** ** C2: the bounding box *)

Lemma clampedFrom_clampCoord (u : number) : clampedFrom u (clampCoord u).
Proof.
  split; [reflexivity|]. split.
  - intros Hu. now rewrite clampCoord_nan.
  - apply clampCoord_range.
Qed.

(** C2, as stated, fails: a candidate with a negative raw width is emitted
    with [x1 > x2].  Column 0 below has centre 64 and width -20; its box is
    [(0.578125, 0.421875, 0.421875, 0.578125)]. *)
Lemma C2_negative_width_swaps_corners :
  map bbox (processDetections 0.5%float
              (mkTensor [1; 5; 1] [64; 64; -20; 20; 0.75]%float))
  = [(0.578125, 0.421875, 0.421875, 0.578125)%float]
  /\ (0.578125 <=? 0.421875)%float = false.
Proof. split; vm_compute; reflexivity. Qed.

(** The elements of a [Float32Array] are of binary32 magnitude; a binary64
    number under the binary32 range is not. *)
Example float32Sized_examples :
  float32Sized 64%float = true /\ float32Sized 0%float = true
  /\ float32Sized (-0.75)%float = true
  /\ float32Sized (fround 0.1%float) = true
  /\ float32Sized 0x1p-149%float = true
  /\ float32Sized 0x1p-200%float = false.
Proof. repeat split; vm_compute; reflexivity. Qed.

(** C2, amended: a returned detection is the object pushed for an accepted
    candidate column, and every coordinate of its [bbox] is
    [Math.max(0, Math.min(1, u))] of the matching corner value [u] of that
    column; it is within [[0, 1]] unless [u] is [NaN], hence whenever the
    centre and the size read from the column are finite.  [x1 <= x2] (resp.
    [y1 <= y2]) holds whenever the centre and the width (resp. height) of
    the column are finite numbers of binary32 magnitude, as the elements of
    a [Float32Array] are, and the width (resp. height) is not negative; it
    also holds whenever the unclamped corners are so ordered.  The decoder
    does not reorder corners, so nothing is promised for a negative raw
    width or height. *)
Theorem C2_bbox_clamped
  (confidenceThreshold : number) (output : Tensor) (d : Detection) :
  In d (processDetections confidenceThreshold output) ->
  boxClamped confidenceThreshold output d.
Proof.
  intros Hin. unfold processDetections in Hin.
  destruct (dims output) as [|batch [|nO [|nD rest]]] eqn:Hdims;
    try (destruct Hin).
  apply decode_In in Hin. destruct Hin as (i & Hi & Hacc & ->).
  exists nO, nD, i. rewrite Hdims.
  split; [reflexivity|]. split; [reflexivity|]. split; [exact Hi|].
  split; [exact Hacc|]. split; [reflexivity|].
  unfold detectionAt, rawBox. cbn [bbox].
  split; [split; [|split; [|split]]; apply clampedFrom_clampCoord|].
  split; [|split; [|split; [|split; [|split; apply clampCoord_mono]]]].
  - intros Hc Hs. destruct (corner_number _ _ Hc Hs) as [H1 H2].
    split; now apply clampCoord_range.
  - intros Hc Hs. destruct (corner_number _ _ Hc Hs) as [H1 H2].
    split; now apply clampCoord_range.
  - intros Hc Hs Hc32 Hs32 Hpos. apply clampCoord_mono.
    now apply corners_ordered.
  - intros Hc Hs Hc32 Hs32 Hpos. apply clampCoord_mono.
    now apply corners_ordered.
Qed.

Lemma C2_bbox_clamped_witness :
  boxClamped 0.5%float
    (mkTensor [1; 5; 2] [64; 32; 64; 32; 20; 10; 20; 10; 0.75; 0.25]%float)
    {| classId := 0; score := 0.75%float;
       bbox := (0.421875, 0.421875, 0.578125, 0.578125)%float;
       className := "angry" |}.
Proof.
  apply (C2_bbox_clamped 0.5%float).
  vm_compute. left. reflexivity.
Defined.

(** ** C3: score and class of a detection *)

Lemma detectionAt_score (dat : list number) (nD nC i : Z) :
  score (detectionAt dat nD nC i) = normalizeScore (classScan dat nD nC i).1.
Proof. unfold detectionAt, rawBox. reflexivity. Qed.

Lemma detectionAt_classId (dat : list number) (nD nC i : Z) :
  classId (detectionAt dat nD nC i) = (classScan dat nD nC i).2.
Proof. unfold detectionAt, rawBox. reflexivity. Qed.

Lemma classScan_classId_range (dat : list number) (nD nC i : Z) :
  1 <= nC -> 0 <= (classScan dat nD nC i).2 < nC.
Proof.
  intros HnC. pose proof (classScan_inv dat nD nC i) as Hinv.
  destruct (classScan dat nD nC i) as [m c]. cbn [snd].
  destruct Hinv as (_ & _ & [[_ ->] | (Hc & _)]); lia.
Qed.

(** C3: on a tensor of shape [[1, numOutputs, numDetections]] with
    [numOutputs >= 5], every returned detection has a score strictly above
    the confidence threshold and at most 1, and a [classId] in
    [[0, numOutputs - 4)]. *)
Theorem C3_score_and_class_in_range
  (confidenceThreshold : number) (output : Tensor) (numOutputs : Z)
  (d : Detection) :
  shapeContract (dims output) = true ->
  dims output !! 1%nat = Some numOutputs ->
  In d (processDetections confidenceThreshold output) ->
  gt (score d) confidenceThreshold = true
  /\ (score d <=? 1)%float = true
  /\ 0 <= classId d < numOutputs - 4.
Proof.
  intros Hshape Hlook Hin. unfold processDetections in Hin.
  destruct (dims output) as [|batch [|nO [|nD [|? ?]]]] eqn:Hdims;
    try discriminate Hshape.
  cbn in Hlook. injection Hlook as ->.
  cbn in Hshape. apply andb_true_iff in Hshape as [_ HnO].
  apply Z.leb_le in HnO.
  apply decode_In in Hin. destruct Hin as (i & Hi & Hacc & ->).
  rewrite detectionAt_score, detectionAt_classId.
  unfold acceptedAt, accepted in Hacc.
  apply andb_true_iff in Hacc as [Hgt _].
  split; [exact Hgt|]. split.
  - apply normalizeScore_scan.
  - apply classScan_classId_range. lia.
Qed.

Lemma C3_score_and_class_in_range_witness :
  gt 0.75%float 0.5%float = true
  /\ (0.75 <=? 1)%float = true
  /\ 0 <= 0 < 5 - 4.
Proof.
  apply (C3_score_and_class_in_range 0.5%float
           (mkTensor [1; 5; 2]
              [64; 32; 64; 32; 20; 10; 20; 10; 0.75; 0.25]%float)
           5
           {| classId := 0; score := 0.75%float;
              bbox := (0.421875, 0.421875, 0.578125, 0.578125)%float;
              className := "angry" |}).
  - reflexivity.
  - reflexivity.
  - vm_compute. left. reflexivity.
Defined.

(** ** C4: the winner of a candidate column *)

(** C4, as stated, fails when every class score of the column is negative:
    below the raw scores are -1 and -0.5, so the maximum raw score is -0.5,
    at row 1; the scan returns its initial state, score 0 and row 0. *)
Lemma C4_all_negative_column_keeps_zero :
  let dat := [64; 64; 20; 20; -1; -0.5]%float in
  classScore dat 1 0 0 = (-1)%float
  /\ classScore dat 1 0 1 = (-0.5)%float
  /\ classScan dat 1 2 0 = (0%float, 0).
Proof. repeat split; vm_compute; reflexivity. Qed.

(** C4, amended: for every candidate column [i], the scan over the class
    rows starts from [(maxScore, maxClassId) = (0, 0)] and ends on a
    [maxScore] that no class score of the column exceeds.  When some class
    score of the column is positive, [maxScore] is the maximum raw score and
    [maxClassId] the lowest row that holds it; when none is positive, all
    negative included, the result is [(0, 0)].  The winning score is then
    clamped into [[0, 1]]: the clamped score is [Math.min(maxScore, 1)], that
    is [maxScore] itself when it is at most 1 and 1 when it is above 1. *)
Theorem C4_class_scan_winner (dat : list number) (nD nC i : Z) :
  let s := classScore dat nD i in
  let st := classScan dat nD nC i in
  (forall j, 0 <= j < nC -> (st.1 <? s j)%float = false)
  /\ ((exists j, 0 <= j < nC /\ (0 <? s j)%float = true) ->
      0 <= st.2 < nC
      /\ st.1 = s st.2
      /\ forall j, 0 <= j < st.2 -> (s j =? st.1)%float = false)
  /\ ((forall j, 0 <= j < nC -> (0 <? s j)%float = false) ->
      st = (0%float, 0))
  /\ (0 <=? normalizeScore st.1)%float = true
  /\ (normalizeScore st.1 <=? 1)%float = true
  /\ normalizeScore st.1 = Math_min st.1 1%float
  /\ ((st.1 <=? 1)%float = true -> normalizeScore st.1 = st.1)
  /\ ((1 <? st.1)%float = true -> normalizeScore st.1 = 1%float).
Proof.
  intros s st.
  pose proof (classScan_inv dat nD nC i) as Hinv.
  pose proof (normalizeScore_scan dat nD nC i) as Hns.
  fold st in Hinv, Hns. fold s in Hinv.
  destruct st as [m c] eqn:Hst. cbn [fst snd] in *.
  assert (Hmin : normalizeScore m = Math_min m 1%float).
  { destruct Hinv as (_ & _ & [[-> _] | (_ & _ & Hpos & _)]);
      [reflexivity|].
    unfold normalizeScore. now rewrite Math_max_positive. }
  destruct Hinv as (Hm & Hub & Hsel).
  split; [intros j Hj; apply Hub; lia|].
  split.
  { intros (j & Hj & Hpos).
    destruct Hsel as [[-> ->] | (Hc & Hmc & _ & Hlow)].
    - rewrite Hub in Hpos by lia. discriminate.
    - split; [lia|]. split; [exact Hmc | exact Hlow]. }
  split; [intros Hnp; rewrite <- Hst; now apply classScan_no_positive|].
  split; [apply Hns|]. split; [apply Hns|]. split; [exact Hmin|].
  rewrite Hmin. split.
  - apply Math_min_one_kept.
  - apply Math_min_one_capped.
Qed.

Lemma C4_class_scan_winner_witness :
  let dat := [64; 64; 20; 20; 0.25; 0.75; 0.75]%float in
  0 <= (classScan dat 1 3 0).2 < 3
  /\ (classScan dat 1 3 0).1 = classScore dat 1 0 (classScan dat 1 3 0).2
  /\ forall j, 0 <= j < (classScan dat 1 3 0).2 ->
               (classScore dat 1 0 j =? (classScan dat 1 3 0).1)%float
               = false.
Proof.
  intros dat.
  apply (proj1 (proj2 (C4_class_scan_winner dat 1 3 0))).
  exists 1. split; [lia | reflexivity].
Defined.

(** ** C5: the threshold is antitone in the number of detections *)

(** C5: for a fixed tensor, raising the confidence threshold never adds a
    detection. *)
Theorem C5_threshold_monotone (t1 t2 : number) (output : Tensor) :
  (t1 <=? t2)%float = true ->
  (length (processDetections t2 output)
   <= length (processDetections t1 output))%nat.
Proof.
  intros Hle. unfold processDetections.
  destruct (dims output) as [|batch [|nO [|nD rest]]]; try (cbn; lia).
  apply (for_range_rel (fun a2 a1 => (length a2 <= length a1)%nat));
    [cbn; lia|].
  intros k a2 a1 _ Hlen. rewrite !decodeCandidate_eq, !length_app.
  destruct (acceptedAt t2 _ _ _ _) eqn:Hacc.
  - rewrite (acceptedAt_antitone _ _ _ _ _ _ Hle Hacc). cbn. lia.
  - cbn. lia.
Qed.

Lemma C5_threshold_monotone_witness :
  let output :=
    mkTensor [1; 5; 2] [64; 32; 64; 32; 20; 10; 20; 10; 0.75; 0.625]%float in
  (length (processDetections 0.6875%float output)
   <= length (processDetections 0.5%float output))%nat.
Proof.
  intros output. apply C5_threshold_monotone. reflexivity.
Defined.

(** ** C8: the all-zero tensor *)

Lemma all_zero_no_positive (dat : list number) (k : Z) :
  Forall (fun x => (x =? 0)%float = true) dat ->
  (0 <? Float32Array_get dat k)%float = false.
Proof.
  intros Hzero. unfold Float32Array_get, index.
  destruct (k <? 0); [reflexivity|].
  destruct (dat !! Z.to_nat k) as [x|] eqn:Hx; [|reflexivity].
  cbn. apply eqb_zero_nltb. exact (Forall_lookup_1 _ _ _ _ Hzero Hx).
Qed.

(** C8: on a tensor whose entries are all zero ([+0] or [-0]) the decoder
    returns no detection at any threshold [>= 0].  The shape plays no part:
    the statement holds for every [dims]. *)
Theorem C8_all_zero_tensor_no_detections
  (confidenceThreshold : number) (output : Tensor) :
  Forall (fun x => (x =? 0)%float = true) (data output) ->
  (0 <=? confidenceThreshold)%float = true ->
  processDetections confidenceThreshold output = [].
Proof.
  intros Hzero Ht. unfold processDetections.
  destruct (dims output) as [|batch [|nO [|nD rest]]]; try reflexivity.
  apply decode_none. intros i _.
  rewrite acceptedAt_zero_scan; [now apply leb_nltb|].
  apply classScan_no_positive. intros j _.
  now apply all_zero_no_positive.
Qed.

Lemma C8_all_zero_tensor_no_detections_witness :
  processDetections 0%float
    (mkTensor [1; 5; 2] [0; 0; 0; 0; 0; 0; 0; 0; 0; -0]%float) = [].
Proof.
  apply C8_all_zero_tensor_no_detections.
  - repeat constructor.
  - reflexivity.
Defined.

(** ** C10: ties and columns without a positive score *)

(** C10, as stated, fails on a tie at a maximum that is not positive: below
    rows 1 and 2 share the maximal raw score 0 and row 0 holds -1, yet the
    candidate gets [classId] 0, as both the scan and the detection emitted
    at threshold -0.5 show. *)
Lemma C10_tie_at_zero_takes_row_zero :
  let dat := [64; 64; 20; 20; -1; 0; 0]%float in
  classScore dat 1 0 0 = (-1)%float
  /\ classScore dat 1 0 1 = 0%float
  /\ classScore dat 1 0 2 = 0%float
  /\ classScan dat 1 3 0 = (0%float, 0)
  /\ map classId (processDetections (-0.5)%float (mkTensor [1; 7; 1] dat))
     = [0].
Proof. repeat split; vm_compute; reflexivity. Qed.

(** C10, amended: for every candidate column in which two or more class
    rows share the maximal raw score and that score is positive, the
    candidate's [classId] is the lowest such row; and for every candidate
    whose class scores are all [<= 0], the winning score is 0 and the
    [classId] is 0, so that the candidate is accepted exactly when the
    confidence threshold is negative. *)
Theorem C10_tie_break_and_floor
  (confidenceThreshold : number) (dat : list number) (nD nC i : Z) :
  let s := classScore dat nD i in
  let d := detectionAt dat nD nC i in
  (forall j1 j2,
      0 <= j1 < nC -> 0 <= j2 < nC -> j1 <> j2 ->
      (s j1 =? s j2)%float = true ->
      (0 <? s j1)%float = true ->
      (forall j, 0 <= j < nC -> (s j1 <? s j)%float = false) ->
      0 <= classId d < nC
      /\ (s (classId d) =? s j1)%float = true
      /\ forall j, 0 <= j < nC -> (s j =? s j1)%float = true ->
                   classId d <= j)
  /\ ((forall j, 0 <= j < nC -> (s j <=? 0)%float = true) ->
      score d = 0%float
      /\ classId d = 0
      /\ acceptedAt confidenceThreshold dat nD nC i
         = (confidenceThreshold <? 0)%float).
Proof.
  intros s d. subst d. rewrite detectionAt_score, detectionAt_classId.
  split.
  - intros j1 j2 Hj1 _ _ _ Hpos Hmax.
    pose proof (classScan_inv dat nD nC i) as Hinv. fold s in Hinv.
    destruct (classScan dat nD nC i) as [m c]. cbn [fst snd].
    destruct Hinv as (Hm & Hub & [[-> ->] | (Hc & Hmc & Hmpos & Hlow)]).
    { rewrite Hub in Hpos by lia. discriminate. }
    assert (Heq : (s c =? s j1)%float = true).
    { apply nltb_eqb.
      - rewrite <- Hmc. now apply leb_nan in Hm.
      - now apply ltb_nan in Hpos.
      - rewrite <- Hmc. apply Hub. lia.
      - apply Hmax. lia. }
    split; [lia|]. split; [exact Heq|].
    intros j Hj Hjeq. destruct (Z_lt_le_dec j c) as [Hlt | Hge]; [|lia].
    specialize (Hlow j ltac:(lia)). rewrite Hmc in Hlow.
    rewrite (eqb_eqb_eqb _ _ _ Hjeq Heq) in Hlow. discriminate.
  - intros Hnp.
    assert (Hscan : classScan dat nD nC i = (0%float, 0)).
    { apply classScan_no_positive. intros j Hj.
      apply leb_nltb. now apply Hnp. }
    rewrite (acceptedAt_zero_scan _ _ _ _ _ Hscan), Hscan.
    repeat split.
Qed.

Lemma C10_tie_break_and_floor_witness :
  let dat := [64; 64; 20; 20; 0.25; 0.75; 0.75]%float in
  let d := detectionAt dat 1 3 0 in
  0 <= classId d < 3
  /\ (classScore dat 1 0 (classId d) =? classScore dat 1 0 1)%float = true
  /\ forall j, 0 <= j < 3 ->
               (classScore dat 1 0 j =? classScore dat 1 0 1)%float = true ->
               classId d <= j.
Proof.
  intros dat d.
  apply (proj1 (C10_tie_break_and_floor 0.5%float dat 1 3 0) 1 2);
    try lia; try reflexivity.
  intros j Hj.
  assert (Hcases : j = 0 \/ j = 1 \/ j = 2) by lia.
  destruct Hcases as [-> | [-> | ->]]; reflexivity.
Defined.

(** ** C6 and C7: the preprocessor *)

Section TypedArrayFacts.
Implicit Types (a : list number) (k : Z) (v : number).

Lemma Float32Array_set_length a k v :
  length (Float32Array_set a k v) = length a.
Proof.
  unfold Float32Array_set. destruct (k <? 0); [reflexivity|].
  apply length_insert.
Qed.

Lemma index_set_eq a k v :
  0 <= k < Z.of_nat (length a) ->
  index (Float32Array_set a k v) k = Some (fround v).
Proof.
  intros Hk. unfold index, Float32Array_set.
  destruct (Z.ltb_spec k 0); [lia|].
  apply list_lookup_insert_eq. lia.
Qed.

Lemma index_set_ne a k k' v :
  k <> k' -> index (Float32Array_set a k v) k' = index a k'.
Proof.
  intros Hne. unfold index, Float32Array_set.
  destruct (Z.ltb_spec k' 0); [reflexivity|].
  destruct (Z.ltb_spec k 0); [reflexivity|].
  apply list_lookup_insert_ne. lia.
Qed.

End TypedArrayFacts.

Section PreprocessorFacts.
Variable pixels : list Byte.byte.

Lemma preprocessStep_length (i : Z) (input : list number) :
  length (preprocessStep pixels i input) = length input.
Proof.
  unfold preprocessStep. now rewrite !Float32Array_set_length.
Qed.

Lemma preprocessStep_filled (k : Z) (input : list number) :
  0 <= k < IMG_SIZE * IMG_SIZE ->
  planesFilled pixels k input ->
  planesFilled pixels (k + 1) (preprocessStep pixels k input).
Proof.
  intros Hk [Hlen Hpre]. split.
  { now rewrite preprocessStep_length. }
  intros i Hi. unfold preprocessStep.
  destruct (Z.eq_dec i k) as [-> | Hne].
  - repeat split.
    + rewrite !index_set_ne by lia. apply index_set_eq. lia.
    + rewrite index_set_ne by lia. apply index_set_eq.
      rewrite Float32Array_set_length. lia.
    + apply index_set_eq. rewrite !Float32Array_set_length. lia.
  - rewrite !index_set_ne by lia. apply Hpre. lia.
Qed.

Lemma preprocess_loop_filled :
  planesFilled pixels (IMG_SIZE * IMG_SIZE)
    (for_range (IMG_SIZE * IMG_SIZE) (preprocessStep pixels)
       (Float32Array_new (3 * IMG_SIZE * IMG_SIZE))).
Proof.
  replace (IMG_SIZE * IMG_SIZE) with (Z.max 0 (IMG_SIZE * IMG_SIZE)) at 1
    by reflexivity.
  apply for_range_ind.
  - split; [|intros; lia].
    unfold Float32Array_new. rewrite length_replicate.
    apply Z2Nat.id. discriminate.
  - intros k a Hk. now apply preprocessStep_filled.
Qed.

End PreprocessorFacts.

Lemma preprocessStep_ext (pixels pixels' : list Byte.byte) (i : Z) :
  (forall k, k mod 4 <> 3 -> index pixels' k = index pixels k) ->
  preprocessStep pixels' i = preprocessStep pixels i.
Proof.
  intros Hagree. unfold preprocessStep, Uint8Array_get.
  rewrite !Hagree; [reflexivity| | |].
  - replace (i * 4 + 2) with (2 + i * 4) by lia.
    rewrite Z.mod_add by lia. discriminate.
  - replace (i * 4 + 1) with (1 + i * 4) by lia.
    rewrite Z.mod_add by lia. discriminate.
  - rewrite Z.mod_mul by lia. discriminate.
Qed.

(** C6: the tensor built from an interleaved R,G,B,A buffer is planar: with
    [plane = IMG_SIZE * IMG_SIZE], entry [i] is the red byte of pixel [i]
    over 255, entry [plane + i] the green one and entry [2 * plane + i] the
    blue one, each stored as the nearest 32-bit float; the alpha bytes
    (the positions [k] with [k mod 4 = 3]) do not reach the tensor. *)
Theorem C6_planar_layout (HTMLVideoElement : Type)
  (canvasPixels : HTMLVideoElement -> list Byte.byte)
  (video : HTMLVideoElement) :
  let pixels := canvasPixels video in
  let input := preprocessImage HTMLVideoElement canvasPixels video in
  let plane := IMG_SIZE * IMG_SIZE in
  (forall i, 0 <= i < plane ->
     Float32Array_get input i
     = fround (Uint8Array_get pixels (i * 4) / 255)%float
     /\ Float32Array_get input (plane + i)
        = fround (Uint8Array_get pixels (i * 4 + 1) / 255)%float
     /\ Float32Array_get input (2 * plane + i)
        = fround (Uint8Array_get pixels (i * 4 + 2) / 255)%float)
  /\ (forall canvasPixels' : HTMLVideoElement -> list Byte.byte,
        (forall k, k mod 4 <> 3 ->
                   index (canvasPixels' video) k = index pixels k) ->
        preprocessImage HTMLVideoElement canvasPixels' video = input).
Proof.
  intros pixels input plane. split.
  - intros i Hi.
    destruct (preprocess_loop_filled pixels) as [_ Hfill].
    destruct (Hfill i Hi) as (Hr & Hg & Hb).
    unfold Float32Array_get, input, preprocessImage. fold pixels.
    change (2 * plane + i) with (2 * IMG_SIZE * IMG_SIZE + i).
    unfold plane. now rewrite Hr, Hg, Hb.
  - intros canvasPixels' Hagree. unfold input, preprocessImage.
    apply (for_range_rel eq); [reflexivity|].
    intros k a a' _ ->. now rewrite (preprocessStep_ext pixels).
Qed.

Lemma C6_planar_layout_witness :
  let canvasPixels := fun _ : unit =>
    [Byte.x01; Byte.x02; Byte.x03; Byte.xff] in
  let input := preprocessImage unit canvasPixels tt in
  Float32Array_get input 0
  = fround (Uint8Array_get (canvasPixels tt) (0 * 4) / 255)%float
  /\ Float32Array_get input (IMG_SIZE * IMG_SIZE + 0)
     = fround (Uint8Array_get (canvasPixels tt) (0 * 4 + 1) / 255)%float
  /\ Float32Array_get input (2 * (IMG_SIZE * IMG_SIZE) + 0)
     = fround (Uint8Array_get (canvasPixels tt) (0 * 4 + 2) / 255)%float.
Proof.
  intros canvasPixels input.
  apply (proj1 (C6_planar_layout unit canvasPixels tt) 0).
  unfold IMG_SIZE. lia.
Defined.

(** C7: whatever the frame, the tensor has [3 * IMG_SIZE * IMG_SIZE]
    entries. *)
Theorem C7_preprocess_length (HTMLVideoElement : Type)
  (canvasPixels : HTMLVideoElement -> list Byte.byte)
  (video : HTMLVideoElement) :
  Z.of_nat (length (preprocessImage HTMLVideoElement canvasPixels video))
  = 3 * IMG_SIZE * IMG_SIZE.
Proof.
  exact (proj1 (preprocess_loop_filled (canvasPixels video))).
Qed.

(** ** C9: the frames-per-second counter *)

Lemma runLoop_snoc (events : list LoopEvent) (e : LoopEvent) :
  runLoop (events ++ [e]) = loopStep (runLoop events) e.
Proof. unfold runLoop. now rewrite fold_left_app. Qed.

Lemma completed_cycles_counted (k : nat) (s : LoopState) :
  fold_left loopStep (replicate k CycleCompleted) s
  = {| frameCountRef := frameCountRef s + Z.of_nat k; fps := fps s |}.
Proof.
  revert s. induction k as [|k IH]; intros s.
  - destruct s. cbn. now rewrite Z.add_0_r.
  - cbn [replicate fold_left]. rewrite IH. cbn. f_equal. lia.
Qed.

Lemma timeline_snoc (period : Z) (completions : list nat) (k : nat) :
  timeline period (completions ++ [k])
  = timeline period completions
    ++ replicate k CycleCompleted
    ++ (if (Z.of_nat (length completions) + 1) mod period =? 0
        then [IntervalFired] else []).
Proof.
  unfold timeline. rewrite imap_app, concat_app. cbn.
  now rewrite Nat.add_0_r, app_nil_r.
Qed.

Lemma runLoop_millisecond (completions : list nat) (k : nat) :
  runLoop (timeline FPS_INTERVAL_MS (completions ++ [k]))
  = let s := runLoop (timeline FPS_INTERVAL_MS completions) in
    {| frameCountRef := 0; fps := frameCountRef s + Z.of_nat k |}.
Proof.
  rewrite timeline_snoc. unfold FPS_INTERVAL_MS at 2.
  rewrite Z.mod_1_r. cbn [Z.eqb].
  unfold runLoop. rewrite !fold_left_app, completed_cycles_counted.
  reflexivity.
Qed.

Lemma counter_reset_every_millisecond (completions : list nat) :
  frameCountRef (runLoop (timeline FPS_INTERVAL_MS completions)) = 0.
Proof.
  destruct completions as [|c completions _] using rev_ind;
    [reflexivity|].
  now rewrite runLoop_millisecond.
Qed.

(** With the period the component passes to [setInterval], the counter is
    published and reset every millisecond: [fps] is the number of cycles
    completed in the last millisecond. *)
Lemma fps_is_last_millisecond (completions : list nat) (k : nat) :
  runLoop (timeline FPS_INTERVAL_MS (completions ++ [k]))
  = {| frameCountRef := 0; fps := Z.of_nat k |}.
Proof.
  rewrite runLoop_millisecond. cbv zeta.
  now rewrite counter_reset_every_millisecond.
Qed.

(** C9 does not hold of the code: the interval that publishes and resets
    the counter has a period of one millisecond, not one second.  Over one
    second in which a cycle completes every 10 ms, 100 cycles complete and
    the published [fps] is 1, the count of the last millisecond; a timer of
    period 1000 ms publishes 100. *)
Theorem C9_fps_window_is_one_millisecond :
  FPS_INTERVAL_MS = 1
  /\ list_sum (steadySecond 10) = 100%nat
  /\ fps (runLoop (timeline FPS_INTERVAL_MS (steadySecond 10))) = 1
  /\ fps (runLoop (timeline 1000 (steadySecond 10))) = 100.
Proof. repeat split; vm_compute; reflexivity. Qed.

(* ================================================================= *)
(** * Part IV: further properties of the code *)
(* ================================================================= *)

(** ** Further properties of the decoder *)

Section DecoderExtras.
Implicit Types (t : number) (o : Tensor) (dat : list number).

Lemma acceptedAt_inv t dat (nD nC i : Z) :
  acceptedAt t dat nD nC i = true ->
  let st := classScan dat nD nC i in
  (t <? normalizeScore st.1)%float = true
  /\ 0 <= st.2 < Z.of_nat (length COCO_CLASSES).
Proof.
  unfold acceptedAt, accepted, gt. rewrite andb_true_iff, Z.ltb_lt.
  intros [Hgt Hid]. split; [exact Hgt|]. split; [|exact Hid].
  pose proof (classScan_inv dat nD nC i) as Hinv.
  destruct (classScan dat nD nC i) as [m c]. cbn [snd] in *.
  destruct Hinv as (_ & _ & [[_ ->] | (Hc & _)]); lia.
Qed.

(** X1: the decoder returns at most one detection per candidate column:
    never more than [numDetections] of them. *)
Theorem decode_at_most_one_per_candidate t o (batch nO nD : Z)
  (rest : list Z) :
  dims o = batch :: nO :: nD :: rest ->
  Z.of_nat (length (processDetections t o)) <= Z.max 0 nD.
Proof.
  intros Hdims. rewrite (processDetections_dims _ _ _ _ _ _ Hdims).
  apply (for_range_ind (fun k dets => Z.of_nat (length dets) <= k));
    [cbn; lia|].
  intros k dets Hk Hlen. rewrite decodeCandidate_eq, length_app.
  destruct (acceptedAt _ _ _ _ _); cbn; lia.
Qed.

Lemma decode_at_most_one_per_candidate_witness :
  Z.of_nat (length (processDetections 0.5%float
                      (mkTensor [1; 5; 2]
                         [64; 32; 64; 32; 20; 10; 20; 10; 0.75; 0.625]%float)))
  <= Z.max 0 2.
Proof. now apply (decode_at_most_one_per_candidate _ _ 1 5 2 []). Defined.

(** X2: the decoder returns exactly the accepted candidates, in increasing
    column order: nothing is merged, suppressed or reordered across
    candidates. *)
Theorem decode_accepted_in_column_order t o (batch nO nD : Z)
  (rest : list Z) :
  dims o = batch :: nO :: nD :: rest ->
  processDetections t o =
  flat_map (fun k => if acceptedAt t (data o) nD (nO - 4) (Z.of_nat k)
                     then [detectionAt (data o) nD (nO - 4) (Z.of_nat k)]
                     else [])
           (seq 0 (Z.to_nat nD)).
Proof.
  intros Hdims. rewrite (processDetections_dims _ _ _ _ _ _ Hdims).
  apply decode_flat_map.
Qed.

Lemma decode_accepted_in_column_order_witness :
  let dat := [64; 32; 64; 32; 20; 10; 20; 10; 0.75; 0.625]%float in
  processDetections 0.5%float (mkTensor [1; 5; 2] dat) =
  flat_map (fun k => if acceptedAt 0.5%float dat 2 (5 - 4) (Z.of_nat k)
                     then [detectionAt dat 2 (5 - 4) (Z.of_nat k)] else [])
           (seq 0 (Z.to_nat 2)).
Proof.
  intros dat.
  now apply (decode_accepted_in_column_order _ (mkTensor [1; 5; 2] dat)
               1 5 2 []).
Defined.

Lemma classScan_local dat dat' (nD nC i : Z) :
  (forall r, 4 <= r < 4 + nC ->
             index dat (r * nD + i) = index dat' (r * nD + i)) ->
  classScan dat nD nC i = classScan dat' nD nC i.
Proof.
  intros Hagree. unfold classScan.
  apply (for_range_rel eq); [reflexivity|].
  intros k st st' Hk ->. unfold classScanStep, Float32Array_get.
  now rewrite Hagree by lia.
Qed.

(** X3: whether candidate [i] is accepted, and the detection it yields,
    depend only on the entries of column [i] (the four box rows and the
    class rows): the rest of the tensor has no influence. *)
Theorem candidate_depends_on_its_column t dat dat' (nD nC i : Z) :
  (forall r, 0 <= r < 4 + Z.max 0 nC ->
             index dat (r * nD + i) = index dat' (r * nD + i)) ->
  acceptedAt t dat nD nC i = acceptedAt t dat' nD nC i
  /\ detectionAt dat nD nC i = detectionAt dat' nD nC i.
Proof.
  intros Hagree.
  assert (Hscan : classScan dat nD nC i = classScan dat' nD nC i)
    by (apply classScan_local; intros r Hr; apply Hagree; lia).
  unfold acceptedAt, detectionAt, rawBox, Float32Array_get.
  rewrite Hscan.
  pose proof (Hagree 0 ltac:(lia)) as H0.
  pose proof (Hagree 1 ltac:(lia)) as H1.
  pose proof (Hagree 2 ltac:(lia)) as H2.
  pose proof (Hagree 3 ltac:(lia)) as H3.
  replace (0 * nD + i) with i in H0 by lia.
  replace (1 * nD + i) with (nD + i) in H1 by lia.
  now rewrite H0, H1, H2, H3.
Qed.

Lemma candidate_depends_on_its_column_witness :
  let dat := [64; 32; 64; 32; 20; 10; 20; 10; 0.75; 0.625]%float in
  let dat' := [64; -1; 64; -1; 20; -1; 20; -1; 0.75; 1]%float in
  acceptedAt 0.5%float dat 2 1 0 = acceptedAt 0.5%float dat' 2 1 0
  /\ detectionAt dat 2 1 0 = detectionAt dat' 2 1 0.
Proof.
  intros dat dat'. apply candidate_depends_on_its_column.
  intros r Hr.
  assert (Hcases : r = 0 \/ r = 1 \/ r = 2 \/ r = 3 \/ r = 4) by lia.
  destruct Hcases as [-> | [-> | [-> | [-> | ->]]]]; reflexivity.
Defined.

(** X4: for a fixed tensor, the detections at a higher threshold are a
    sublist of those at a lower one: raising the threshold only removes
    detections, and leaves the others unchanged and in order. *)
Theorem decode_sublist_of_lower_threshold (t1 t2 : number) o :
  (t1 <=? t2)%float = true ->
  sublist (processDetections t2 o) (processDetections t1 o).
Proof.
  intros Hle. unfold processDetections.
  destruct (dims o) as [|batch [|nO [|nD rest]]]; try reflexivity.
  apply (for_range_rel (fun a2 a1 => sublist a2 a1)); [reflexivity|].
  intros k a2 a1 _ Hsub. rewrite !decodeCandidate_eq.
  apply sublist_app; [exact Hsub|].
  destruct (acceptedAt t2 _ _ _ _) eqn:Hacc.
  - now rewrite (acceptedAt_antitone _ _ _ _ _ _ Hle Hacc).
  - apply sublist_nil_l.
Qed.

Lemma decode_sublist_of_lower_threshold_witness :
  let output :=
    mkTensor [1; 5; 2] [64; 32; 64; 32; 20; 10; 20; 10; 0.75; 0.625]%float in
  sublist (processDetections 0.6875%float output)
          (processDetections 0.5%float output).
Proof.
  intros output. apply decode_sublist_of_lower_threshold. reflexivity.
Defined.

(** X5: at a threshold of 1 or more, the slider's end position included,
    the decoder returns nothing, whatever the tensor: scores are clamped to
    1 and the test is strict. *)
Theorem decode_nothing_at_full_threshold t o :
  (1 <=? t)%float = true -> processDetections t o = [].
Proof.
  intros Ht. unfold processDetections.
  destruct (dims o) as [|batch [|nO [|nD rest]]]; try reflexivity.
  apply decode_none. intros i _.
  destruct (acceptedAt t (data o) nD (nO - 4) i) eqn:Hacc; [|reflexivity].
  apply acceptedAt_inv in Hacc as [Hgt _].
  destruct (normalizeScore_scan (data o) nD (nO - 4) i) as [_ Hle1].
  rewrite (leb_nltb _ _ (leb_trans _ _ _ Hle1 Ht)) in Hgt. discriminate.
Qed.

Lemma decode_nothing_at_full_threshold_witness :
  processDetections (thresholdOfSlider 100)
    (mkTensor [1; 5; 1] [64; 64; 20; 20; 7]%float) = [].
Proof. apply decode_nothing_at_full_threshold. reflexivity. Defined.

(** X6: every returned detection has a [classId] below
    [COCO_CLASSES.length] and carries the name [COCO_CLASSES[classId]]: the
    fallback name [`Class ${maxClassId}`] is never used. *)
Theorem detection_class_name t o (d : Detection) :
  In d (processDetections t o) ->
  0 <= classId d < Z.of_nat (length COCO_CLASSES)
  /\ index COCO_CLASSES (classId d) = Some (className d).
Proof.
  intros Hin. unfold processDetections in Hin.
  destruct (dims o) as [|batch [|nO [|nD rest]]]; try destruct Hin.
  apply decode_In in Hin. destruct Hin as (i & _ & Hacc & ->).
  apply acceptedAt_inv in Hacc as [_ Hid].
  rewrite detectionAt_classId.
  split; [exact Hid|].
  unfold detectionAt, rawBox. cbn [className].
  destruct (classScan (data o) nD (nO - 4) i) as [m c]. cbn [fst snd] in *.
  change (Z.of_nat (length COCO_CLASSES)) with 7 in Hid.
  assert (Hc : c = 0 \/ c = 1 \/ c = 2 \/ c = 3 \/ c = 4 \/ c = 5 \/ c = 6)
    by lia.
  destruct Hc as [-> | [-> | [-> | [-> | [-> | [-> | ->]]]]]]; reflexivity.
Qed.

Lemma detection_class_name_witness :
  0 <= 1 < Z.of_nat (length COCO_CLASSES)
  /\ index COCO_CLASSES 1 = Some "fear"%string.
Proof.
  apply (detection_class_name 0.5%float
           (mkTensor [1; 6; 1] [64; 64; 20; 20; 0.25; 0.75]%float)
           {| classId := 1; score := 0.75%float;
              bbox := (0.421875, 0.421875, 0.578125, 0.578125)%float;
              className := "fear" |}).
  vm_compute. left. reflexivity.
Defined.

(** X7: at a threshold that is not negative, a returned detection is the
    one pushed for an accepted candidate column [i], and its score is
    [Math.min(raw, 1)], where [raw] is the entry of column [i] at class row
    [classId]: a positive number above the threshold that no class score of
    column [i] exceeds. *)
Theorem detection_score_is_clamped_winner t o (batch nO nD : Z)
  (rest : list Z) (d : Detection) :
  dims o = batch :: nO :: nD :: rest ->
  (0 <=? t)%float = true ->
  In d (processDetections t o) ->
  exists i, 0 <= i < nD
    /\ acceptedAt t (data o) nD (nO - 4) i = true
    /\ d = detectionAt (data o) nD (nO - 4) i
    /\ 0 <= classId d < nO - 4
    /\ let raw := classScore (data o) nD i (classId d) in
       (0 <? raw)%float = true
       /\ (t <? raw)%float = true
       /\ (forall j, 0 <= j < nO - 4 ->
             (raw <? classScore (data o) nD i j)%float = false)
       /\ score d = Math_min raw 1%float.
Proof.
  intros Hdims Ht Hin.
  rewrite (processDetections_dims _ _ _ _ _ _ Hdims) in Hin.
  apply decode_In in Hin. destruct Hin as (i & Hi & Hacc & ->).
  exists i. split; [exact Hi|]. split; [exact Hacc|].
  split; [reflexivity|].
  apply acceptedAt_inv in Hacc as [Hgt _].
  rewrite detectionAt_classId, detectionAt_score.
  pose proof (classScan_inv (data o) nD (nO - 4) i) as Hinv.
  destruct (classScan (data o) nD (nO - 4) i) as [m c]. cbn [fst snd] in *.
  destruct Hinv as (Hm & Hub & [[-> ->] | (Hc & Hmc & Hpos & _)]).
  { change (normalizeScore 0%float) with 0%float in Hgt.
    rewrite (leb_nltb _ _ Ht) in Hgt. discriminate. }
  split; [lia|]. cbv zeta. rewrite <- Hmc.
  unfold normalizeScore in *. rewrite (Math_max_positive _ Hpos) in *.
  split; [exact Hpos|]. split.
  - apply (ltb_leb_trans _ _ _ Hgt). apply Math_min_leb_l; [|reflexivity].
    now apply ltb_nan in Hpos.
  - split; [|reflexivity]. intros j Hj. apply Hub. lia.
Qed.

Lemma detection_score_is_clamped_winner_witness :
  let o := mkTensor [1; 6; 1] [64; 64; 20; 20; 0.25; 7]%float in
  let d := {| classId := 1; score := 1%float;
              bbox := (0.421875, 0.421875, 0.578125, 0.578125)%float;
              className := "fear" |} in
  exists i, 0 <= i < 1
    /\ acceptedAt 0.5%float (data o) 1 (6 - 4) i = true
    /\ d = detectionAt (data o) 1 (6 - 4) i
    /\ 0 <= 1 < 6 - 4
    /\ let raw := classScore (data o) 1 i 1 in
       (0 <? raw)%float = true
       /\ (0.5 <? raw)%float = true
       /\ (forall j, 0 <= j < 6 - 4 ->
             (raw <? classScore (data o) 1 i j)%float = false)
       /\ 1%float = Math_min raw 1%float.
Proof.
  intros o d.
  apply (detection_score_is_clamped_winner 0.5%float o 1 6 1 [] d).
  - reflexivity.
  - reflexivity.
  - vm_compute. left. reflexivity.
Defined.

End DecoderExtras.

(** ** Further properties of the preprocessor *)

Section PreprocessorExtras.

Lemma normalizedByte_inUnit (n : N) :
  (n < 256)%N -> inUnit (normalizedByte n).
Proof.
  intros Hn.
  assert (Hall : List.forallb
                   (fun k => let v := normalizedByte (N.of_nat k) in
                             (0 <=? v)%float && (v <=? 1)%float)
                   (seq 0 256) = true) by (vm_compute; reflexivity).
  rewrite List.forallb_forall in Hall.
  specialize (Hall (N.to_nat n)). rewrite N2Nat.id in Hall.
  apply andb_true_iff. apply Hall. apply in_seq. lia.
Qed.

Lemma normalizedByte_succ (k : nat) :
  (k < 255)%nat ->
  (normalizedByte (N.of_nat k) <? normalizedByte (N.of_nat (S k)))%float
  = true.
Proof.
  intros Hk.
  assert (Hall : List.forallb
                   (fun k => (normalizedByte (N.of_nat k)
                              <? normalizedByte (N.of_nat (S k)))%float)
                   (seq 0 255) = true) by (vm_compute; reflexivity).
  rewrite List.forallb_forall in Hall. apply Hall, in_seq. lia.
Qed.

Lemma normalizedByte_increasing (n1 n2 : N) :
  (n1 < n2)%N -> (n2 < 256)%N ->
  (normalizedByte n1 <? normalizedByte n2)%float = true.
Proof.
  intros Hlt Hn2.
  rewrite <- (N2Nat.id n1), <- (N2Nat.id n2).
  assert (Hlt' : (N.to_nat n1 < N.to_nat n2)%nat) by lia.
  assert (Hn2' : (N.to_nat n2 < 256)%nat) by lia.
  revert Hlt' Hn2'. generalize (N.to_nat n1) as a, (N.to_nat n2) as b.
  intros a b Hab. induction Hab as [|b Hab IH]; intros Hb.
  - apply normalizedByte_succ. lia.
  - eapply ltb_trans; [apply IH; lia | apply normalizedByte_succ; lia].
Qed.

Lemma Uint8Array_get_byte (pixels : list Byte.byte) (k : Z) (b : Byte.byte) :
  index pixels k = Some b ->
  fround (Uint8Array_get pixels k / 255)%float
  = normalizedByte (Byte.to_N b).
Proof. unfold Uint8Array_get. now intros ->. Qed.

(** Entry [c * plane + i] holds byte [i * 4 + c] of the buffer. *)
Lemma preprocess_entry (pixels : list Byte.byte) (c i : Z) :
  0 <= c < 3 -> 0 <= i < IMG_SIZE * IMG_SIZE ->
  index (for_range (IMG_SIZE * IMG_SIZE) (preprocessStep pixels)
           (Float32Array_new (3 * IMG_SIZE * IMG_SIZE)))
        (c * (IMG_SIZE * IMG_SIZE) + i)
  = Some (fround (Uint8Array_get pixels (i * 4 + c) / 255)%float).
Proof.
  intros Hc Hi.
  destruct (preprocess_loop_filled pixels) as [_ Hfill].
  destruct (Hfill i Hi) as (Hr & Hg & Hb).
  assert (Hcases : c = 0 \/ c = 1 \/ c = 2) by lia.
  destruct Hcases as [-> | [-> | ->]].
  - replace (0 * (IMG_SIZE * IMG_SIZE) + i) with i by lia.
    replace (i * 4 + 0) with (i * 4) by lia. exact Hr.
  - replace (1 * (IMG_SIZE * IMG_SIZE) + i) with (IMG_SIZE * IMG_SIZE + i)
      by lia.
    exact Hg.
  - replace (2 * (IMG_SIZE * IMG_SIZE) + i)
      with (2 * IMG_SIZE * IMG_SIZE + i) by lia.
    exact Hb.
Qed.

Lemma index_Some_of_length {A : Type} (l : list A) (k : Z) :
  0 <= k < Z.of_nat (length l) -> exists x, index l k = Some x.
Proof.
  intros Hk. unfold index. destruct (Z.ltb_spec k 0); [lia|].
  apply lookup_lt_is_Some. lia.
Qed.

(** X8: when the canvas buffer holds all [4 * IMG_SIZE * IMG_SIZE] bytes,
    every entry of the tensor is a number within [[0, 1]]. *)
Theorem preprocessImage_entries_in_unit (HTMLVideoElement : Type)
  (canvasPixels : HTMLVideoElement -> list Byte.byte)
  (video : HTMLVideoElement) (k : Z) :
  4 * IMG_SIZE * IMG_SIZE <= Z.of_nat (length (canvasPixels video)) ->
  0 <= k < 3 * IMG_SIZE * IMG_SIZE ->
  inUnit (Float32Array_get
            (preprocessImage HTMLVideoElement canvasPixels video) k).
Proof.
  intros Hfull Hk. unfold preprocessImage.
  set (plane := IMG_SIZE * IMG_SIZE).
  assert (Hplane : 0 < plane) by reflexivity.
  assert (Hsplit : k = (k / plane) * plane + k mod plane)
    by (rewrite Z.mul_comm; apply Z.div_mod; lia).
  pose proof (Z.mod_pos_bound k plane Hplane) as Hi.
  assert (Hc : 0 <= k / plane < 3).
  { split; [apply Z.div_pos; lia|]. apply Z.div_lt_upper_bound; lia. }
  unfold Float32Array_get. rewrite Hsplit.
  rewrite (preprocess_entry _ _ _ Hc Hi).
  destruct (index_Some_of_length (canvasPixels video)
              (k mod plane * 4 + k / plane)) as [b Hb]; [lia|].
  cbn [to_number default]. rewrite (Uint8Array_get_byte _ _ _ Hb).
  apply normalizedByte_inUnit.
  pose proof (Byte.to_N_bounded b). lia.
Qed.

Lemma preprocessImage_entries_in_unit_witness :
  inUnit (Float32Array_get
            (preprocessImage unit
               (fun _ => replicate (Z.to_nat 65536) Byte.x80) tt) 40000).
Proof.
  apply preprocessImage_entries_in_unit.
  - rewrite length_replicate. unfold IMG_SIZE. lia.
  - unfold IMG_SIZE. lia.
Defined.

(** X9: normalisation keeps the order of the bytes, strictly: across
    pixels and channels, a larger byte gives a larger tensor entry, so that
    distinct bytes stay distinct. *)
Theorem preprocessImage_keeps_byte_order (HTMLVideoElement : Type)
  (canvasPixels : HTMLVideoElement -> list Byte.byte)
  (video : HTMLVideoElement) (c1 i1 c2 i2 : Z) (b1 b2 : Byte.byte) :
  0 <= c1 < 3 -> 0 <= i1 < IMG_SIZE * IMG_SIZE ->
  0 <= c2 < 3 -> 0 <= i2 < IMG_SIZE * IMG_SIZE ->
  index (canvasPixels video) (i1 * 4 + c1) = Some b1 ->
  index (canvasPixels video) (i2 * 4 + c2) = Some b2 ->
  (Byte.to_N b1 < Byte.to_N b2)%N ->
  let input := preprocessImage HTMLVideoElement canvasPixels video in
  (Float32Array_get input (c1 * (IMG_SIZE * IMG_SIZE) + i1)
   <? Float32Array_get input (c2 * (IMG_SIZE * IMG_SIZE) + i2))%float = true.
Proof.
  intros Hc1 Hi1 Hc2 Hi2 Hb1 Hb2 Hlt. cbv zeta.
  unfold preprocessImage, Float32Array_get.
  rewrite !preprocess_entry by assumption. cbn [to_number default].
  rewrite (Uint8Array_get_byte _ _ _ Hb1), (Uint8Array_get_byte _ _ _ Hb2).
  apply normalizedByte_increasing; [exact Hlt|].
  pose proof (Byte.to_N_bounded b2). lia.
Qed.

Lemma preprocessImage_keeps_byte_order_witness :
  let input :=
    preprocessImage unit
      (fun _ => [Byte.x01; Byte.x02; Byte.x03; Byte.xff]) tt in
  (Float32Array_get input (0 * (IMG_SIZE * IMG_SIZE) + 0)
   <? Float32Array_get input (1 * (IMG_SIZE * IMG_SIZE) + 0))%float = true.
Proof.
  intros input.
  apply (preprocessImage_keeps_byte_order unit
           (fun _ => [Byte.x01; Byte.x02; Byte.x03; Byte.xff]) tt
           0 0 1 0 Byte.x01 Byte.x02);
    try (unfold IMG_SIZE; lia); reflexivity.
Defined.

End PreprocessorExtras.

(** ** The threshold slider *)

Section SliderFacts.

Lemma in_slider_range (value : Z) :
  0 <= value <= 100 -> In (Z.to_nat value) (seq 0 101).
Proof. intros Hv. apply in_seq. lia. Qed.

Lemma thresholdOfSlider_succ (value : Z) :
  0 <= value < 100 ->
  (thresholdOfSlider value <? thresholdOfSlider (value + 1))%float = true.
Proof.
  intros Hv.
  assert (Hall : List.forallb
                   (fun k => (thresholdOfSlider (Z.of_nat k)
                              <? thresholdOfSlider (Z.of_nat k + 1))%float)
                   (seq 0 100) = true) by (vm_compute; reflexivity).
  rewrite List.forallb_forall in Hall.
  specialize (Hall (Z.to_nat value)). rewrite Z2Nat.id in Hall by lia.
  apply Hall, in_seq. lia.
Qed.

(** X10: over the positions 0 to 100 of the slider, the threshold the
    handler stores is within [[0, 1]] and strictly increasing in the
    position. *)
Theorem slider_threshold_in_unit_and_increasing (value1 value2 : Z) :
  0 <= value1 -> value1 < value2 -> value2 <= 100 ->
  (0 <=? thresholdOfSlider value1)%float = true
  /\ (thresholdOfSlider value1 <? thresholdOfSlider value2)%float = true
  /\ (thresholdOfSlider value2 <=? 1)%float = true.
Proof.
  intros H1 Hlt H2.
  assert (Hall : List.forallb
                   (fun k => let t := thresholdOfSlider (Z.of_nat k) in
                             (0 <=? t)%float && (t <=? 1)%float)
                   (seq 0 101) = true) by (vm_compute; reflexivity).
  rewrite List.forallb_forall in Hall.
  pose proof (Hall _ (in_slider_range value1 ltac:(lia))) as Hr1.
  pose proof (Hall _ (in_slider_range value2 ltac:(lia))) as Hr2.
  rewrite Z2Nat.id in Hr1, Hr2 by lia. cbv zeta in Hr1, Hr2.
  apply andb_true_iff in Hr1 as [Hr1 _], Hr2 as [_ Hr2].
  split; [exact Hr1|]. split; [|exact Hr2].
  clear Hall Hr1 Hr2.
  replace value2 with (value1 + 1 + Z.of_nat (Z.to_nat (value2 - value1 - 1)))
    in * by lia.
  induction (Z.to_nat (value2 - value1 - 1)) as [|n IH].
  - rewrite Z.add_0_r. apply thresholdOfSlider_succ. lia.
  - eapply ltb_trans; [apply IH; lia|].
    replace (value1 + 1 + Z.of_nat (S n))
      with (value1 + 1 + Z.of_nat n + 1) by lia.
    apply thresholdOfSlider_succ. lia.
Qed.

Lemma slider_threshold_in_unit_and_increasing_witness :
  (0 <=? thresholdOfSlider 0)%float = true
  /\ (thresholdOfSlider 0 <? thresholdOfSlider 100)%float = true
  /\ (thresholdOfSlider 100 <=? 1)%float = true.
Proof. apply slider_threshold_in_unit_and_increasing; lia. Defined.

(** X11: the [value] the slider is rendered with,
    [confidenceThreshold * 100], is within half a step of the position that
    set the threshold, although not always equal to it (position 29 comes
    back as 28.999999999999996). *)
Theorem slider_value_round_trip (value : Z) :
  0 <= value <= 100 ->
  let shown := sliderValue (thresholdOfSlider value) in
  (num value - 0.5 <? shown)%float = true
  /\ (shown <? num value + 0.5)%float = true.
Proof.
  intros Hv. cbv zeta.
  assert (Hall : List.forallb
                   (fun k => let shown :=
                               sliderValue (thresholdOfSlider (Z.of_nat k)) in
                             (num (Z.of_nat k) - 0.5 <? shown)%float
                             && (shown <? num (Z.of_nat k) + 0.5)%float)
                   (seq 0 101) = true) by (vm_compute; reflexivity).
  rewrite List.forallb_forall in Hall.
  pose proof (Hall _ (in_slider_range value Hv)) as H.
  rewrite Z2Nat.id in H by lia. now apply andb_true_iff in H.
Qed.

Lemma slider_value_round_trip_witness :
  let shown := sliderValue (thresholdOfSlider 29) in
  (num 29 - 0.5 <? shown)%float = true
  /\ (shown <? num 29 + 0.5)%float = true.
Proof. apply slider_value_round_trip. lia. Defined.

End SliderFacts.

(** ** The frame counter *)

Lemma frameCountRef_since_tick (events : list LoopEvent) :
  frameCountRef (runLoop events)
  = Z.of_nat (completedSinceTick (rev events)).
Proof.
  induction events as [|e events IH] using rev_ind; [reflexivity|].
  rewrite runLoop_snoc, rev_app_distr. cbn [rev app].
  destruct e; cbn [loopStep frameCountRef completedSinceTick].
  - reflexivity.
  - rewrite IH. lia.
  - exact IH.
Qed.

(** X12: when the interval callback fires, the [fps] it publishes is the
    number of cycles that completed since the previous firing (since
    [startDetection] for the first one), failed cycles not counted, and the
    counter restarts from 0. *)
Theorem tick_publishes_cycles_since_previous_tick
  (events : list LoopEvent) :
  let s := runLoop (events ++ [IntervalFired]) in
  fps s = Z.of_nat (completedSinceTick (rev events))
  /\ frameCountRef s = 0.
Proof.
  cbv zeta. rewrite runLoop_snoc. cbn [loopStep fps frameCountRef].
  split; [apply frameCountRef_since_tick | reflexivity].
Qed.

(** ** The component *)

(** Every handler keeps [Invariant]; the properties below are read off
    it. *)

Module ComponentFacts.
Import Component.

Lemma decoded_wellFormed (t : number) (o : Tensor) :
  Forall wellFormed (processDetections t o).
Proof.
  apply List.Forall_forall. intros d Hin. unfold wellFormed.
  assert (Hscore : inUnit (score d)).
  { unfold processDetections in Hin.
    destruct (dims o) as [|batch [|nO [|nD rest]]]; try destruct Hin.
    apply decode_In in Hin. destruct Hin as (i & _ & _ & ->).
    rewrite detectionAt_score. apply normalizeScore_scan. }
  split; [exact Hscore|].
  unfold processDetections in Hin.
  destruct (dims o) as [|batch [|nO [|nD rest]]]; try destruct Hin.
  apply decode_In in Hin. destruct Hin as (i & _ & Hacc & ->).
  unfold acceptedAt, accepted in Hacc.
  apply andb_true_iff in Hacc as [_ Hid]. apply Z.ltb_lt in Hid.
  pose proof (classScan_inv (data o) nD (nO - 4) i) as Hinv.
  unfold detectionAt, rawBox. cbn [classId className].
  destruct (classScan (data o) nD (nO - 4) i) as [m c]. cbn [fst snd] in *.
  assert (H0 : 0 <= c)
    by (destruct Hinv as (_ & _ & [[_ ->] | (Hc & _)]); lia).
  split; [lia|].
  change (Z.of_nat (length COCO_CLASSES)) with 7 in Hid.
  assert (Hc : c = 0 \/ c = 1 \/ c = 2 \/ c = 3 \/ c = 4 \/ c = 5 \/ c = 6)
    by lia.
  destruct Hc as [-> | [-> | [-> | [-> | [-> | [-> | ->]]]]]]; reflexivity.
Qed.

Lemma cancel_single (h : Z) (c : Closure) : cancel h [(h, c)] = [].
Proof. unfold cancel. cbn. now rewrite Z.eqb_refl. Qed.

Lemma registered_In (h : Z) (timers : list (Z * Closure)) (c : Closure) :
  registered h timers = Some c -> In (h, c) timers.
Proof.
  unfold registered. destruct (List.find _ timers) as [[h' c']|] eqn:Hfind;
    [|discriminate].
  cbn. intros [= ->]. apply List.find_some in Hfind as [Hin Heq].
  cbn in Heq. apply Z.eqb_eq in Heq. now subst.
Qed.

Lemma Invariant_initial : Invariant initial.
Proof.
  constructor; cbn; try easy; try lia.
Qed.

Lemma Invariant_stopDetection (s : App) :
  Invariant s -> Invariant (stopDetection s).
Proof.
  intros [Hh Hi [Hf Ha] Hfl Hm Hs Hfps Hc Hd].
  constructor; cbn; try easy; try lia.
  - destruct (isDetecting s).
    + destruct Hi as (c & -> & _ & Hpos).
      destruct (Z.eqb_spec (fpsIntervalRef s) 0); [lia|].
      apply cancel_single.
    + rewrite Hi. now destruct (fpsIntervalRef s =? 0).
  - rewrite Hf, Ha. easy.
Qed.

Lemma Invariant_startDetection (s : App) :
  isDetecting s = false -> Invariant s -> Invariant (startDetection s).
Proof.
  intros Hoff [Hh Hi [Hf Ha] Hfl Hm Hs Hfps Hc Hd].
  unfold startDetection. rewrite Hoff in Hi.
  destruct (modelLoaded s) eqn:Hloaded; cbn [negb].
  - constructor; cbn; try easy; try lia.
    exists {| seenDetecting := isDetecting s;
              seenThreshold := confidenceThreshold s |}.
    rewrite Hi, Hoff. repeat split; lia.
  - constructor; cbn; try easy; try lia.
    all: now rewrite Hoff.
Qed.

Lemma Invariant_detectFrameBegins (c : Closure) (s : App) :
  seenDetecting c = false -> Invariant s -> Invariant (detectFrameBegins c s).
Proof.
  intros Hc Hinv. unfold detectFrameBegins.
  destruct (sessionRef s) eqn:Hsession; cbn [negb]; [|exact Hinv].
  destruct Hinv as [Hh Hi [Hf Ha] Hfl Hm Hs Hfps Hcnt Hd].
  constructor; cbn; try easy.
  apply Forall_app. split; [exact Hfl|]. now constructor.
Qed.

Lemma Invariant_intervalFires (h : Z) (s : App) :
  Invariant s -> Invariant (intervalFires h s).
Proof.
  intros Hinv. unfold intervalFires.
  destruct (registered h (intervals s)) as [c|] eqn:Hreg; [|exact Hinv].
  apply registered_In in Hreg.
  destruct Hinv as [Hh Hi [Hf Ha] Hfl Hm Hs Hfps Hcnt Hd].
  destruct (isDetecting s) eqn:Hon.
  2:{ rewrite Hi in Hreg. destruct Hreg. }
  destruct Hi as (c' & Hi & Hc' & Hpos).
  rewrite Hi in Hreg. destruct Hreg as [[= _ ->] | []].
  apply Invariant_detectFrameBegins; [exact Hc'|].
  constructor; cbn; try easy; try lia.
  now exists c.
Qed.

Lemma Invariant_animationFrameFires (h : Z) (s : App) :
  Invariant s -> Invariant (animationFrameFires h s).
Proof.
  intros Hinv. unfold animationFrameFires.
  destruct Hinv as [Hh Hi [Hf Ha] Hfl Hm Hs Hfps Hcnt Hd].
  rewrite Hf. cbn. now constructor.
Qed.

Lemma Invariant_detectFrameSettles (k : nat) (result : option Tensor)
  (s : App) :
  Invariant s -> Invariant (detectFrameSettles k result s).
Proof.
  intros Hinv. unfold detectFrameSettles.
  destruct (inFlight s !! k) as [c|] eqn:Hk; [|exact Hinv].
  destruct Hinv as [Hh Hi [Hf Ha] Hfl Hm Hs Hfps Hcnt Hd].
  pose proof (Forall_lookup_1 _ _ _ _ Hfl Hk) as Hc. cbn beta in Hc.
  rewrite Hc.
  constructor; cbn; try easy.
  - now apply Forall_delete.
  - destruct result; lia.
  - destruct result; [apply decoded_wellFormed | exact Hd].
Qed.

Lemma Invariant_step (s : App) (e : Event) :
  Invariant s -> Invariant (step s e).
Proof.
  intros Hinv. destruct e; cbn [step].
  - destruct Hinv. now constructor.
  - destruct Hinv as [Hh Hi [Hf Ha] Hfl Hm Hs Hfps Hcnt Hd].
    now constructor.
  - destruct Hinv. now constructor.
  - destruct Hinv. now constructor.
  - destruct Hinv. now constructor.
  - unfold toggleDetection. destruct (isDetecting s) eqn:Hon.
    + now apply Invariant_stopDetection.
    + now apply Invariant_startDetection.
  - now apply Invariant_intervalFires.
  - now apply Invariant_animationFrameFires.
  - now apply Invariant_detectFrameSettles.
  - now apply Invariant_stopDetection.
Qed.

Lemma Invariant_run (events : list Event) : Invariant (run events).
Proof.
  unfold run. induction events as [|e events IH] using rev_ind.
  - apply Invariant_initial.
  - rewrite fold_left_app. apply Invariant_step, IH.
Qed.


(** X13: after any sequence of events, exactly one interval is active
    while [isDetecting] holds, the one whose handle is in [fpsIntervalRef],
    and none is active otherwise: starting and stopping never leak a
    timer. *)
Theorem one_interval_while_detecting (events : list Event) :
  let s := run events in
  if isDetecting s
  then exists c, intervals s = [(fpsIntervalRef s, c)]
  else intervals s = [].
Proof.
  cbv zeta. destruct (Invariant_run events) as [_ Hi _ _ _ _ _ _ _].
  destruct (isDetecting (run events)); [|exact Hi].
  destruct Hi as (c & Hi & _). now exists c.
Qed.

(** X14: detection never runs without a loaded model: whenever
    [isDetecting] holds, [modelLoaded] holds and [sessionRef] is set. *)
Theorem detecting_needs_model (events : list Event) :
  isDetecting (run events) = true ->
  modelLoaded (run events) = true /\ sessionRef (run events) = true.
Proof.
  intros Hon. destruct (Invariant_run events) as [_ _ _ _ Hm Hs _ _ _].
  auto.
Qed.

Lemma detecting_needs_model_witness :
  modelLoaded (run [LoadModelBegins; LoadModelSucceeds; ButtonClicked]) = true
  /\ sessionRef (run [LoadModelBegins; LoadModelSucceeds; ButtonClicked])
     = true.
Proof. apply detecting_needs_model. reflexivity. Defined.

(** X15: whenever the loop is not detecting, the published [fps] is 0. *)
Theorem fps_zero_when_idle (events : list Event) :
  isDetecting (run events) = false -> fps (run events) = 0.
Proof. apply (Invariant_run events). Qed.

Lemma fps_zero_when_idle_witness :
  fps (run [LoadModelBegins; LoadModelSucceeds; ButtonClicked;
            IntervalFires 1;
            DetectFrameSettles 0
              (Some (mkTensor [1; 5; 1] [64; 64; 20; 20; 0.75]%float));
            IntervalFires 1; ButtonClicked]) = 0.
Proof. apply fps_zero_when_idle. reflexivity. Defined.

(** X16: [detectFrame] never reaches [requestAnimationFrame]: the
    interval callback keeps the [detectFrame] of the render in which
    [startDetection] ran, where [isDetecting] was false, so [animationRef]
    stays 0 and no animation frame is ever requested. *)
Theorem no_animation_frame_requested (events : list Event) :
  animationFrames (run events) = [] /\ animationRef (run events) = 0.
Proof. apply (Invariant_run events). Qed.

(** X17: every detection the component ever publishes has a score within
    [[0, 1]], a [classId] below [COCO_CLASSES.length] and the name
    [COCO_CLASSES[classId]]. *)
Theorem published_detections_wellFormed (events : list Event)
  (d : Detection) :
  In d (detections (run events)) ->
  inUnit (score d)
  /\ 0 <= classId d < Z.of_nat (length COCO_CLASSES)
  /\ index COCO_CLASSES (classId d) = Some (className d).
Proof.
  intros Hin. destruct (Invariant_run events) as [_ _ _ _ _ _ _ _ Hd].
  rewrite List.Forall_forall in Hd. exact (Hd d Hin).
Qed.

Lemma published_detections_wellFormed_witness :
  inUnit 0.75%float
  /\ 0 <= 0 < Z.of_nat (length COCO_CLASSES)
  /\ index COCO_CLASSES 0 = Some "angry"%string.
Proof.
  apply (published_detections_wellFormed
           [LoadModelBegins; LoadModelSucceeds; ButtonClicked;
            IntervalFires 1;
            DetectFrameSettles 0
              (Some (mkTensor [1; 5; 1] [64; 64; 20; 20; 0.75]%float))]
           {| classId := 0; score := 0.75%float;
              bbox := (0.421875, 0.421875, 0.578125, 0.578125)%float;
              className := "angry" |}).
  vm_compute. left. reflexivity.
Defined.

(** X18: whatever happened before, unmounting leaves no active interval
    and no requested animation frame, with detection off, the detection
    list empty and [fps] at 0. *)
Theorem unmount_releases_timers (events : list Event) :
  let s := run (events ++ [Unmounts]) in
  intervals s = [] /\ animationFrames s = []
  /\ isDetecting s = false /\ detections s = [] /\ fps s = 0.
Proof.
  cbv zeta.
  destruct (Invariant_run (events ++ [Unmounts])) as [_ Hi [Hf _] _ _ _ _ _ _].
  unfold run in *. rewrite fold_left_app in *. cbn in *.
  repeat split; assumption.
Qed.

(** Not an invariant: a cycle in flight when detection stops still
    publishes its detections when it settles. *)
Example late_cycle_publishes_after_stop :
  let s := run [LoadModelBegins; LoadModelSucceeds; ButtonClicked;
                IntervalFires 1; ButtonClicked;
                DetectFrameSettles 0
                  (Some (mkTensor [1; 5; 1] [64; 64; 20; 20; 0.75]%float))] in
  isDetecting s = false /\ length (detections s) = 1%nat.
Proof. vm_compute. split; reflexivity. Qed.

End ComponentFacts.
